(** * Mixed-type clustering and bootstrap validation: a shallow embedding

    Model of [src/src/step3_clustering.py] ([prepare_features],
    [compute_gower_and_cluster], [plot_silhouette_scores]) and of
    [src/src/step5_validation.py] ([bootstrap_validation]), together with
    the parts of the third-party libraries they call whose behaviour the
    properties depend on ([gower.gower_matrix], the argument checks of
    [KMedoids.fit] and [silhouette_score], [np.random.choice]).

    Numbers held in numpy float arrays are modelled as exact rationals [Q];
    floating-point rounding (and the [float32] casts inside [gower]) is not
    modelled there.  A rational has no [NaN]: the feature matrices handed to
    [gower] are modelled without missing values.  The one float computation
    whose rounding decides control flow, [int(n * sample_frac)], is
    modelled in binary64 arithmetic ([PyFloat]).  Counters that numpy keeps
    in float arrays but that only ever hold small integers are modelled as
    [nat]. *)

From Stdlib Require Import String.
From Stdlib Require Import List Bool Arith Lia ZArith QArith Qabs Qminmax Qround Lqa Permutation Sorted.
Import ListNotations.

(** ** Python exceptions and the error monad *)

Inductive py_error : Type :=
| ValueError
| KeyError
| IndexError
| TypeError
| OverflowError.

Inductive result (A : Type) : Type :=
| Ok (a : A)
| Err (e : py_error).
Arguments Ok {A} a.
Arguments Err {A} e.

Definition bind {A B : Type} (m : result A) (k : A -> result B) : result B :=
  match m with
  | Ok a => k a
  | Err e => Err e
  end.

Notation "x <- m ;; k" := (bind m (fun x => k))
  (at level 61, m at next level, right associativity).

(** ** Small list utilities used by the numpy code *)

(** [np.sort] on a vector of indices: insertion sort. *)
Fixpoint insert_sorted (x : nat) (l : list nat) : list nat :=
  match l with
  | [] => [x]
  | y :: t => if x <=? y then x :: y :: t else y :: insert_sorted x t
  end.

Fixpoint sort_nat (l : list nat) : list nat :=
  match l with
  | [] => []
  | x :: t => insert_sorted x (sort_nat t)
  end.

(** Python [sum] over a list of rationals. *)
Definition sumQ (l : list Q) : Q := fold_right Qplus 0 l.

(** Python [len(set(l))] for a list of labels. *)
Definition n_distinct (l : list nat) : nat := length (nodup Nat.eq_dec l).

(** ** Gower distance ([gower.gower_matrix], gower 0.1.2)

    [compute_gower_and_cluster] and [bootstrap_validation] call
    [gower.gower_matrix(feature_matrix, cat_features=cat_mask)], with
    [cat_mask[c] = not col.endswith("_scaled")].  The library code is:
<<
    for col in range(num_cols):
        max = np.nanmax(col_array); min = np.nanmin(col_array)
        num_max[col] = max
        num_ranges[col] = np.abs(1 - min / max) if (max != 0) else 0.0
    Z_num = np.divide(Z_num, num_max, out=np.zeros_like(Z_num), where=num_max!=0)
    weight = np.ones(Z.shape[1]); weight_sum = weight.sum()
    for i in range(x_n_rows):
        j_start = i
        res = gower_get(X_cat[i,:], X_num[i,:], Y_cat[j_start:,:], Y_num[j_start:,:], ...)
        out[i, j_start:] = res
        if x_n_rows == y_n_rows: out[i:, j_start] = res
>>
    where [gower_get] adds a mismatch indicator per categorical column and
    [|x_i - x_j| / range] (0 where the range is 0) per numeric column, and
    divides by [weight_sum].  With [data_y = None] the library stacks the
    matrix on itself, which changes neither column maxima nor minima. *)
Module Gower.

Definition row := list Q.

(** Columns kept by a boolean mask ([Z[:, cat_features]] when [keep] is
    [true], [Z[:, np.logical_not(cat_features)]] otherwise). *)
Definition select (mask : list bool) (keep : bool) (r : row) : row :=
  map snd (filter (fun p => Bool.eqb (fst p) keep) (combine mask r)).

Definition column (rows : list row) (c : nat) : list Q :=
  map (fun r => nth c r 0) rows.

(** [np.nanmax] / [np.nanmin] of a non-empty column. *)
Definition col_max (l : list Q) : Q := fold_left Qmax (tl l) (hd 0 l).
Definition col_min (l : list Q) : Q := fold_left Qmin (tl l) (hd 0 l).

Section Matrix.
Variable cat_features : list bool.
Variable data : list row.

Definition Z_num : list row := map (select cat_features false) data.
Definition Z_cat : list row := map (select cat_features true) data.
Definition num_cols : nat := length (filter negb cat_features).

Definition num_max : list Q :=
  map (fun c => col_max (column Z_num c)) (seq 0 num_cols).

Definition num_ranges : list Q :=
  map (fun c =>
         let mx := col_max (column Z_num c) in
         let mn := col_min (column Z_num c) in
         if Qeq_bool mx 0 then 0 else Qabs (1 - mn / mx))
      (seq 0 num_cols).

(** [np.divide(Z_num, num_max, out=zeros, where=num_max!=0)] *)
Definition Z_num_scaled : list row :=
  map (fun r => map (fun c => let mx := nth c num_max 0 in
                              if Qeq_bool mx 0 then 0 else nth c r 0 / mx)
                    (seq 0 num_cols))
      Z_num.

Definition weight_sum : Q := inject_Z (Z.of_nat (length cat_features)).

(** [gower_get] for rows [i] and [j]: one entry of [res]. *)
Definition gower_get (i j : nat) : Q :=
  let xi_cat := nth i Z_cat [] in
  let xj_cat := nth j Z_cat [] in
  let xi_num := nth i Z_num_scaled [] in
  let xj_num := nth j Z_num_scaled [] in
  let sum_cat :=
    sumQ (map (fun c => if Qeq_bool (nth c xi_cat 0) (nth c xj_cat 0) then 0 else 1)
              (seq 0 (length cat_features - num_cols))) in
  let sum_num :=
    sumQ (map (fun c =>
                 let rg := nth c num_ranges 0 in
                 if Qeq_bool rg 0 then 0
                 else Qabs (nth c xi_num 0 - nth c xj_num 0) / rg)
              (seq 0 num_cols)) in
  (sum_cat + sum_num) / weight_sum.

(** An [n x n] numpy array, as a function of row and column. *)
Definition array := nat -> nat -> Q.

(** [out[i, i:] = res] *)
Definition row_write (out : array) (i : nat) (res : list Q) : array :=
  fun r c => if (r =? i) && (i <=? c) && (c <? i + length res)
             then nth (c - i) res 0 else out r c.

(** [out[i:, i] = res] *)
Definition col_write (out : array) (i : nat) (res : list Q) : array :=
  fun r c => if (c =? i) && (i <=? r) && (r <? i + length res)
             then nth (r - i) res 0 else out r c.

Definition n_rows : nat := length data.

Definition res_of (i : nat) : list Q :=
  map (gower_get i) (seq i (n_rows - i)).

Definition gower_loop (out : array) (i : nat) : array :=
  col_write (row_write out i (res_of i)) i (res_of i).

Definition gower_matrix_fn : array :=
  fold_left gower_loop (seq 0 n_rows) (fun _ _ => 0).

(** The returned [n x n] array as a list of rows. *)
Definition gower_matrix : list (list Q) :=
  map (fun r => map (gower_matrix_fn r) (seq 0 n_rows)) (seq 0 n_rows).

End Matrix.

(** The call itself, with the two ways it fails on the matrices the
    source builds: with a numeric column and no rows, [np.nanmax] of the
    empty column raises [ValueError]; with no column at all,
    [cat_features] is the empty [float64] array [np.array([])] and the
    indexing [Z[:, cat_features]] raises [IndexError]. *)
Definition gower_matrix_checked (cat_features : list bool) (data : list row)
    : result (list (list Q)) :=
  if (0 <? num_cols cat_features) && (length data =? 0) then Err ValueError
  else match cat_features with
       | [] => Err IndexError
       | _ :: _ => Ok (gower_matrix cat_features data)
       end.

(** Python [s.endswith(suf)]. *)
Definition endswith (s suf : string) : bool :=
  String.eqb (substring (String.length s - String.length suf) (String.length suf) s) suf.

(** [cat_mask = [not col.endswith("_scaled") for col in feature_matrix.columns]] *)
Definition cat_mask (columns : list string) : list bool :=
  map (fun col => negb (endswith col "_scaled")) columns.

Definition mat_get (D : list (list Q)) (i j : nat) : Q := nth j (nth i D []) 0.

End Gower.

(** ** Python dictionaries keyed by integers, in insertion order *)

Module Dict.

Fixpoint get {A} (d : list (nat * A)) (k : nat) : option A :=
  match d with
  | [] => None
  | (k', v) :: t => if k =? k' then Some v else get t k
  end.

(** [d[k] = v]: replaces the value of an existing key in place, appends
    a new key at the end. *)
Fixpoint set {A} (d : list (nat * A)) (k : nat) (v : A) : list (nat * A) :=
  match d with
  | [] => [(k, v)]
  | (k', v') :: t => if k =? k' then (k, v) :: t else (k', v') :: set t k v
  end.

Definition keys {A} (d : list (nat * A)) : list nat := map fst d.

End Dict.

(** ** [sklearn.metrics.silhouette_score(D, labels, metric="precomputed")]

    [check_number_of_labels] raises [ValueError] unless
    [1 < n_labels < n_samples]; otherwise the score is the mean over the
    samples of [(b - a) / max(a, b)], where [a] is the sum of the distances
    from the sample to the members of its own cluster divided by the cluster
    size minus one, and [b] the smallest mean distance to another cluster;
    [nan_to_num] turns the [0/0] of singleton clusters (and of [max(a,b) = 0])
    into 0. *)
Module Silhouette.
Import Gower.

Definition mean (l : list Q) : Q := sumQ l / inject_Z (Z.of_nat (length l)).

Section Samples.
Variable D : list (list Q).
Variable labels : list nat.

Definition n_samples : nat := length labels.

Definition members (l : nat) : list nat :=
  filter (fun j => nth j labels 0%nat =? l) (seq 0 n_samples).

Definition sil_sample (i : nat) : Q :=
  let li := nth i labels 0%nat in
  let own := members li in
  if length own <=? 1 then 0
  else
    let a := sumQ (map (mat_get D i) own) / inject_Z (Z.of_nat (length own - 1)) in
    let bs := map (fun l => mean (map (mat_get D i) (members l)))
                  (filter (fun l => negb (l =? li)) (nodup Nat.eq_dec labels)) in
    let b := fold_left Qmin (tl bs) (hd 0 bs) in
    let m := Qmax a b in
    if Qeq_bool m 0 then 0 else (b - a) / m.

Definition silhouette_score : result Q :=
  let n_labels := n_distinct labels in
  if (1 <? n_labels)%nat && (n_labels <? n_samples)%nat
  then Ok (mean (map sil_sample (seq 0 n_samples)))
  else Err ValueError.

End Samples.
End Silhouette.

(** ** [KMedoids(n_clusters=k, metric="precomputed", init="k-medoids++",
    random_state=seed, max_iter=300).fit_predict(D)] (scikit-learn-extra)

    The optimisation itself (k-medoids++ seeding from [random_state] and
    the medoid updates) is a parameter [kmedoids_core seed k D]: a
    deterministic function of the seed, [k] and the matrix.  [fit] first
    runs [_check_init_args], which raises [ValueError] for
    [n_clusters <= 0], then [check_array] ([ValueError] on an array with no
    sample; the matrices here hold no [NaN]), then
    [if self.n_clusters > X.shape[0]: raise ValueError(...)]. *)
Module KMedoids.

(** [labels = np.argmin(D[medoid_idxs, :], axis=0)]: each point goes to the
    first medoid at minimal distance. *)
Fixpoint argmin_from (l : list Q) (i best : nat) (bv : Q) : nat :=
  match l with
  | [] => best
  | x :: t => if Qle_bool bv x then argmin_from t (S i) best bv
              else argmin_from t (S i) (S i) x
  end.

Definition labels_from_medoids (D : list (list Q)) (medoid_idxs : list nat) : list nat :=
  map (fun j => let col := map (fun m => Gower.mat_get D m j) medoid_idxs in
                argmin_from (tl col) 0 0 (hd 0 col))
      (seq 0 (length D)).

Definition fit_predict (kmedoids_core : Z -> nat -> list (list Q) -> list nat)
    (random_state : Z) (k : nat) (D : list (list Q)) : result (list nat) :=
  if (k =? 0) || (length D <? k) then Err ValueError
  else Ok (kmedoids_core random_state k D).

End KMedoids.

(** ** [compute_gower_and_cluster] and [plot_silhouette_scores]
    ([src/src/step3_clustering.py]) *)
Module Scan.
Import Gower.

Record candidate : Type := mk_candidate {
  labels : list nat;
  silhouette : Q
}.

Section Scan.
Variable kmedoids_core : Z -> nat -> list (list Q) -> list nat.

(** [for k in k_range: kmed = KMedoids(..., random_state=42, ...);
     labels = kmed.fit_predict(gower_dist);
     sil = silhouette_score(gower_dist, labels, metric="precomputed");
     results[k] = {"labels": labels, "silhouette": sil, ...}] *)
Fixpoint scan_loop (gower_dist : list (list Q)) (k_range : list nat)
    (results : list (nat * candidate)) : result (list (nat * candidate)) :=
  match k_range with
  | [] => Ok results
  | k :: ks =>
      labels <- KMedoids.fit_predict kmedoids_core 42%Z k gower_dist ;;
      sil <- Silhouette.silhouette_score gower_dist labels ;;
      scan_loop gower_dist ks (Dict.set results k (mk_candidate labels sil))
  end.

Definition compute_gower_and_cluster (columns : list string) (feature_matrix : list row)
    (k_range : list nat) : result (list (list Q) * list (nat * candidate)) :=
  let cat_mask := cat_mask columns in
  gower_dist <- gower_matrix_checked cat_mask feature_matrix ;;
  results <- scan_loop gower_dist k_range [] ;;
  Ok (gower_dist, results).

End Scan.

(** [np.argmax]: index of the first maximum of a non-empty vector. *)
Fixpoint argmax_from (l : list Q) (i best : nat) (bv : Q) : nat :=
  match l with
  | [] => best
  | x :: t => if Qle_bool x bv then argmax_from t (S i) best bv
              else argmax_from t (S i) (S i) x
  end.

Definition argmax (l : list Q) : result nat :=
  match l with
  | [] => Err ValueError
  | x :: t => Ok (argmax_from t 0 0 x)
  end.

Fixpoint mapM {A B} (f : A -> result B) (l : list A) : result (list B) :=
  match l with
  | [] => Ok []
  | x :: t => y <- f x ;; ys <- mapM f t ;; Ok (y :: ys)
  end.

(** [ks = sorted(results.keys()); sils = [results[k]["silhouette"] for k in ks];
     best_k = ks[np.argmax(sils)]] *)
Definition plot_silhouette_scores (results : list (nat * candidate)) : result nat :=
  let ks := sort_nat (Dict.keys results) in
  sils <- mapM (fun k => match Dict.get results k with
                         | Some c => Ok (silhouette c)
                         | None => Err KeyError
                         end) ks ;;
  i <- argmax sils ;;
  Ok (nth i ks 0%nat).

(** The scan goes through [k] exactly when [KMedoids.fit] accepts [k] and
    [silhouette_score] accepts the number of distinct labels returned. *)
Definition k_accepted (kmedoids_core : Z -> nat -> list (list Q) -> list nat)
    (D : list (list Q)) (k : nat) : bool :=
  let L := kmedoids_core 42%Z k D in
  (1 <=? k) && (k <=? length D) && (1 <? n_distinct L) && (n_distinct L <? length L).

(** [K_RANGE = range(3, 9)] *)
Definition K_RANGE : list nat := seq 3 6.

End Scan.

(** ** Python floats: [int(n * sample_frac)]

    [float] values are binary64: a rational is rounded to the nearest value
    with a 53-bit significand, ties to even, with quantum at least
    [2^-1074] (subnormals); a result of magnitude [2^1024] or more is an
    infinity. *)
Module PyFloat.

Definition pow2 (e : Z) : Q :=
  if (0 <=? e)%Z then inject_Z (2 ^ e) else 1 # Z.to_pos (2 ^ (- e)).

(** The exponent [E] with [2^E <= q < 2^(E+1)], for [q > 0]. *)
Definition exponent (q : Q) : Z :=
  let e0 := (Z.log2 (Qnum q) - Z.log2 (Zpos (Qden q)))%Z in
  if Qle_bool (pow2 e0) q then e0 else (e0 - 1)%Z.

Definition round_pos (q : Q) : Q :=
  let e := Z.max (exponent q - 52) (-1074) in
  let s := q / pow2 e in
  let m := Qfloor s in
  let r := s - inject_Z m in
  let m' := if negb (Qle_bool r (1 # 2)) || (Qeq_bool r (1 # 2) && Z.odd m)
            then (m + 1)%Z else m in
  inject_Z m' * pow2 e.

Definition round (q : Q) : Q :=
  if negb (Qle_bool q 0) then round_pos q
  else if negb (Qle_bool 0 q) then - round_pos (- q)
  else 0.

Definition overflows (x : Q) : bool := Qle_bool (inject_Z (2 ^ 1024)) (Qabs x).

(** [int(x)] of a finite float truncates towards zero. *)
Definition trunc (x : Q) : Z :=
  if Qle_bool 0 x then Qfloor x else (- Qfloor (- x))%Z.

End PyFloat.

(** ** [np.random.choice(n, size=m, replace=False)] on numpy's global
    generator

    The legacy [RandomState.choice] with an integer population, without
    replacement and without [p]: [if pop_size <= 0 and np.prod(size) != 0]
    it raises [ValueError]; [np.prod(size, dtype=np.intp)] raises
    [OverflowError] for a Python int outside the 64-bit range; then
    [if size > pop_size] and [elif size < 0] raise [ValueError]; it returns
    [self.permutation(n)[:size]].  [permutation] shuffles [arange(n)] with
    [for i in reversed(range(1, n)): j = random_interval(i); swap(i, j)].
    The generator state and its bounded draw [random_interval] (uniform in
    [0, max]) are parameters.  The source never seeds this generator. *)
Module NpRandom.

Section Choice.
Variable rng_state : Type.
Variable random_interval : rng_state -> nat -> nat * rng_state.

Definition swap (l : list nat) (i j : nat) : list nat :=
  map (fun p => if p =? i then nth j l 0%nat
                else if p =? j then nth i l 0%nat else nth p l 0%nat)
      (seq 0 (length l)).

Fixpoint shuffle_from (i : nat) (arr : list nat) (st : rng_state)
    : list nat * rng_state :=
  match i with
  | O => (arr, st)
  | S i' => let (j, st') := random_interval st i in shuffle_from i' (swap arr i j) st'
  end.

Definition permutation (n : nat) (st : rng_state) : list nat * rng_state :=
  shuffle_from (n - 1) (seq 0 n) st.

Definition choice (n : nat) (size : Z) (st : rng_state) : result (list nat * rng_state) :=
  if (n =? 0) && negb (size =? 0)%Z then Err ValueError
  else if (size <? - 2 ^ 63)%Z || (2 ^ 63 <=? size)%Z then Err OverflowError
  else if (Z.of_nat n <? size)%Z || (size <? 0)%Z then Err ValueError
  else let (perm, st') := permutation n st in Ok (firstn (Z.to_nat size) perm, st').

End Choice.
End NpRandom.

(** ** [bootstrap_validation] ([src/src/step5_validation.py]) *)
Module Bootstrap.
Import Gower.

(** numpy [n x n] float arrays of counters. *)
Definition counts := nat -> nat -> nat.

(** [m[i, j] += 1] *)
Definition incr (m : counts) (i j : nat) : counts :=
  fun x y => if (x =? i) && (y =? j) then S (m x y) else m x y.

(** [for a in range(L): for b in range(a + 1, L)] *)
Definition pairs (L : nat) : list (nat * nat) :=
  flat_map (fun a => map (fun b => (a, b)) (seq (S a) (L - S a))) (seq 0 L).

(** Body of the pair loop: [count_matrix[i_a, i_b] += 1;
    count_matrix[i_b, i_a] += 1; if boot_labels[a] == boot_labels[b]:
    coassoc[i_a, i_b] += 1; coassoc[i_b, i_a] += 1]. *)
Definition pair_update (idx_sorted boot_labels : list nat)
    (cm : counts * counts) (ab : nat * nat) : counts * counts :=
  let (coassoc, count_matrix) := cm in
  let (a, b) := ab in
  let i_a := nth a idx_sorted 0%nat in
  let i_b := nth b idx_sorted 0%nat in
  let count_matrix' := incr (incr count_matrix i_a i_b) i_b i_a in
  let coassoc' := if nth a boot_labels 0%nat =? nth b boot_labels 0%nat
                  then incr (incr coassoc i_a i_b) i_b i_a else coassoc in
  (coassoc', count_matrix').

Definition update_coassoc (idx_sorted boot_labels : list nat) (cm : counts * counts)
    : counts * counts :=
  fold_left (pair_update idx_sorted boot_labels) (pairs (length idx_sorted)) cm.

(** [np.where(count_matrix > 0, coassoc / count_matrix, 0)] *)
Definition stability_of (coassoc count_matrix : counts) (i j : nat) : Q :=
  if (0 <? count_matrix i j)%nat
  then inject_Z (Z.of_nat (coassoc i j)) / inject_Z (Z.of_nat (count_matrix i j))
  else 0.

(** [np.nanmean] of a matrix whose [NaN] entries are [None]. *)
Definition nanmean (m : list (list (option Q))) : option Q :=
  let vals := flat_map (fun r => flat_map (fun x => match x with
                                                   | Some v => [v] | None => [] end) r) m in
  match vals with
  | [] => None
  | _ => Some (Silhouette.mean vals)
  end.

Definition members_of (original_labels : list nat) (c : nat) : list nat :=
  filter (fun j => nth j original_labels 0%nat =? c) (seq 0 (length original_labels)).

(** [pairs = stability_matrix[np.ix_(members, members)];
     np.fill_diagonal(pairs, np.nan); np.nanmean(pairs)] *)
Definition member_block (stab : nat -> nat -> Q) (members : list nat)
    : list (list (option Q)) :=
  map (fun a => map (fun b => if a =? b then None
                              else Some (stab (nth a members 0%nat) (nth b members 0%nat)))
                    (seq 0 (length members)))
      (seq 0 (length members)).

(** [for c in sorted(df["cluster"].unique()): ... cluster_stability[c] = ...];
    [np.nanmean] of a block with no non-NaN entry does not occur (the block
    has at least two rows) and is given the value 0 here. *)
Definition cluster_stability_of (original_labels : list nat) (stab : nat -> nat -> Q)
    : list (nat * Q) :=
  fold_left (fun d c =>
      let members := members_of original_labels c in
      if (1 <? length members)%nat
      then Dict.set d c (match nanmean (member_block stab members) with
                         | Some v => v | None => 0 end)
      else Dict.set d c 1)
    (sort_nat (nodup Nat.eq_dec original_labels)) [].

Record results : Type := mk_results {
  ari_scores : list Q;
  sil_scores : list Q;
  stability_matrix : nat -> nat -> Q;
  cluster_stability : list (nat * Q)
}.

Section Run.
Variable rng_state : Type.
Variable random_interval : rng_state -> nat -> nat * rng_state.
(** [KMedoids(...).fit_predict] core, as in [Scan]. *)
Variable kmedoids_core : Z -> nat -> list (list Q) -> list nat.
(** [sklearn.metrics.adjusted_rand_score]. *)
Variable adjusted_rand_score : list nat -> list nat -> Q.

(** Loop state: the global generator and the accumulators. *)
Record acc : Type := mk_acc {
  rng : rng_state;
  coassoc : counts;
  count_matrix : counts;
  ari_acc : list Q;
  sil_acc : list Q
}.

Section Inputs.
Variable original_labels : list nat.
Variable columns : list string.
Variable feature_matrix : list row.
Variable best_k : nat.

Definition n : nat := length original_labels.

(** [feature_matrix.iloc[idx_sorted].reset_index(drop=True)] *)
Definition iloc (idx : list nat) : result (list row) :=
  if forallb (fun i => i <? length feature_matrix) idx
  then Ok (map (fun i => nth i feature_matrix []) idx)
  else Err IndexError.

(** One trial up to the clustering: sample, restricted distance matrix,
    k-medoids with [random_state=i].  Returns [idx_sorted], the
    distance matrix, [boot_labels] and the advanced generator. *)
Definition draw (sample_size : Z) (i : nat) (st : rng_state)
    : result (list nat * list (list Q) * list nat * rng_state) :=
  r <- NpRandom.choice rng_state random_interval n sample_size st ;;
  let (idx, st') := r in
  let idx_sorted := sort_nat idx in
  fm_sample <- iloc idx_sorted ;;
  gower_dist <- gower_matrix_checked (cat_mask columns) fm_sample ;;
  boot_labels <- KMedoids.fit_predict kmedoids_core (Z.of_nat i) best_k gower_dist ;;
  Ok (idx_sorted, gower_dist, boot_labels, st').

(** One iteration of [for i in range(n_iter)]. *)
Definition trial (sample_size : Z) (i : nat) (s : acc) : result acc :=
  d <- draw sample_size i (rng s) ;;
  let '(idx_sorted, gower_dist, boot_labels, st') := d in
  sils <- (if (1 <? n_distinct boot_labels)%nat
           then sil <- Silhouette.silhouette_score gower_dist boot_labels ;;
                Ok (sil_acc s ++ [sil])
           else Ok (sil_acc s)) ;;
  let orig_subset := map (fun j => nth j original_labels 0%nat) idx_sorted in
  let ari := adjusted_rand_score orig_subset boot_labels in
  let cm := update_coassoc idx_sorted boot_labels (coassoc s, count_matrix s) in
  Ok (mk_acc st' (fst cm) (snd cm) (ari_acc s ++ [ari]) sils).

Fixpoint iterate (sample_size : Z) (i remaining : nat) (s : acc) : result acc :=
  match remaining with
  | O => Ok s
  | S r => s' <- trial sample_size i s ;; iterate sample_size (S i) r s'
  end.

(** [sample_size = int(n * sample_frac)]: [sample_frac] is the float
    nearest the given rational; [n] is converted to a float
    ([OverflowError] if too large), the product is rounded, and [int]
    truncates towards zero, raising [OverflowError] on an infinity and
    [ValueError] on the [NaN] of [0 * inf]. *)
Definition sample_size_of (sample_frac : Q) : result Z :=
  let x := PyFloat.round (inject_Z (Z.of_nat n)) in
  let f := PyFloat.round sample_frac in
  if PyFloat.overflows x then Err OverflowError
  else if PyFloat.overflows f then (if n =? 0 then Err ValueError else Err OverflowError)
  else let p := PyFloat.round (x * f) in
       if PyFloat.overflows p then Err OverflowError else Ok (PyFloat.trunc p).

Definition bootstrap_loop (n_iter : nat) (sample_frac : Q) (st : rng_state) : result acc :=
  sample_size <- sample_size_of sample_frac ;;
  iterate sample_size 0 n_iter
    (mk_acc st (fun _ _ => 0%nat) (fun _ _ => 0%nat) [] []).

(** The function returns [results]; the generator state after the call is
    returned as well, since the global generator is shared with later code. *)
Definition bootstrap_validation (n_iter : nat) (sample_frac : Q) (st : rng_state)
    : result (results * rng_state) :=
  s <- bootstrap_loop n_iter sample_frac st ;;
  let stab := stability_of (coassoc s) (count_matrix s) in
  Ok (mk_results (ari_acc s) (sil_acc s) stab
                 (cluster_stability_of original_labels stab), rng s).

End Inputs.
End Run.

Arguments mk_acc {rng_state}.
Arguments rng {rng_state}.
Arguments coassoc {rng_state}.
Arguments count_matrix {rng_state}.
Arguments ari_acc {rng_state}.
Arguments sil_acc {rng_state}.

End Bootstrap.

(** ** [prepare_features] ([src/src/step3_clustering.py])

    A DataFrame read by [pd.read_csv(..., low_memory=False)] is a list of
    named columns of equal length.  A column is numeric ([float64], a missing
    cell is [NaN], here [None]) or, as soon as one cell does not parse as a
    number, of [object] dtype holding strings (missing cells again [None]). *)
Module Features.

Inductive column : Type :=
| NumCol (xs : list (option Q))
| StrCol (xs : list (option string)).

Definition frame := list (string * column).

Definition col_len (c : column) : nat :=
  match c with NumCol xs => length xs | StrCol xs => length xs end.

Fixpoint lookup (df : frame) (name : string) : option column :=
  match df with
  | [] => None
  | (nm, c) :: t => if String.eqb name nm then Some c else lookup t name
  end.

(** [df[name]] *)
Definition getitem (df : frame) (name : string) : result column :=
  match lookup df name with Some c => Ok c | None => Err KeyError end.

(** [df[name] = c]: replaces an existing column in place, appends a new one. *)
Fixpoint setitem (df : frame) (name : string) (c : column) : frame :=
  match df with
  | [] => [(name, c)]
  | (nm, c') :: t => if String.eqb name nm then (nm, c) :: t else (nm, c') :: setitem t name c
  end.

(** [df[names]]: [KeyError] when a name is not a column. *)
Definition select (df : frame) (names : list string) : result frame :=
  Scan.mapM (fun nm => c <- getitem df nm ;; Ok (nm, c)) names.

Definition somes {A} (xs : list (option A)) : list A :=
  flat_map (fun o => match o with Some v => [v] | None => [] end) xs.

Definition all_missing {A} (xs : list (option A)) : bool :=
  forallb (fun o => match o with Some _ => false | None => true end) xs.

Fixpoint insertQ (x : Q) (l : list Q) : list Q :=
  match l with
  | [] => [x]
  | y :: t => if Qle_bool x y then x :: y :: t else y :: insertQ x t
  end.

Fixpoint sortQ (l : list Q) : list Q :=
  match l with [] => [] | x :: t => insertQ x (sortQ t) end.

(** Median of the non-missing values; [NaN] (here [None]) when there are none. *)
Definition median_list (xs : list Q) : option Q :=
  let s := sortQ xs in
  let k := length s in
  if (k =? 0)%nat then None
  else if Nat.odd k then Some (nth (k / 2) s 0)
  else Some ((nth (k / 2 - 1) s 0 + nth (k / 2) s 0) / 2).

(** [Series.median()]: an [object] column is first cast to float, which
    raises [TypeError] on its (non-numeric) strings. *)
Definition median (c : column) : result (option Q) :=
  match c with
  | NumCol xs => Ok (median_list (somes xs))
  | StrCol xs => if all_missing xs then Ok None else Err TypeError
  end.

(** [Series.fillna(v)]; filling with [NaN] changes nothing. *)
Definition fillna (c : column) (v : option Q) : column :=
  match c, v with
  | NumCol xs, Some m => NumCol (map (fun o => match o with Some x => Some x | None => Some m end) xs)
  | _, _ => c
  end.

(** [check_array] in [StandardScaler.fit]: conversion to a float array
    (missing values allowed), which raises [ValueError] on a string. *)
Definition to_float (c : column) : result (list (option Q)) :=
  match c with
  | NumCol xs => Ok xs
  | StrCol xs => if all_missing xs then Ok (map (fun _ => None) xs) else Err ValueError
  end.

Section Scaler.
(** [np.sqrt] on the variance. *)
Variable sqrt : Q -> Q.

(** [(x - mean) / scale] with the mean and population variance of the
    non-missing values; a zero variance gives scale 1; missing stays
    missing; a column with no value stays entirely missing. *)
Definition scale_column (xs : list (option Q)) : list (option Q) :=
  match somes xs with
  | [] => map (fun _ => None) xs
  | vals =>
      let mu := Silhouette.mean vals in
      let var := Silhouette.mean (map (fun x => (x - mu) * (x - mu)) vals) in
      let sc := if Qeq_bool var 0 then 1 else sqrt var in
      map (fun o => match o with Some x => Some ((x - mu) / sc) | None => None end) xs
  end.

(** [StandardScaler().fit_transform(X)]: [ValueError] on a string or on
    zero samples. *)
Definition fit_transform (X : frame) : result (list (list (option Q))) :=
  cols <- Scan.mapM (fun p => to_float (snd p)) X ;;
  if (length (hd [] cols) =? 0)%nat then Err ValueError
  else Ok (map scale_column cols).

End Scaler.

Definition is_object (c : column) : bool :=
  match c with StrCol _ => true | NumCol _ => false end.

Fixpoint insert_str (x : string) (l : list string) : list string :=
  match l with
  | [] => [x]
  | y :: t => if String.leb x y then x :: y :: t else y :: insert_str x t
  end.

Fixpoint sort_str (l : list string) : list string :=
  match l with [] => [] | x :: t => insert_str x (sort_str t) end.

(** The sorted distinct non-missing values of an [object] column. *)
Definition categories (xs : list (option string)) : list string :=
  sort_str (nodup string_dec (somes xs)).

(** One indicator column [name_v] per category [v]; a missing cell gives 0
    in every indicator ([dummy_na=False]). *)
Definition dummies (nm : string) (xs : list (option string)) : frame :=
  map (fun v => ((nm ++ "_" ++ v)%string,
                 NumCol (map (fun o => match o with
                                       | Some x => if String.eqb x v then Some 1 else Some 0
                                       | None => Some 0
                                       end) xs)))
      (categories xs).

(** [pd.get_dummies(X, drop_first=False)]: the non-[object] columns are kept
    in front, the [object] columns are replaced by their indicators. *)
Definition get_dummies (X : frame) : frame :=
  filter (fun p => negb (is_object (snd p))) X ++
  flat_map (fun p => match snd p with StrCol xs => dummies (fst p) xs | NumCol _ => [] end) X.

Definition trunc (q : Q) : Q :=
  inject_Z (if Qle_bool 0 q then Qfloor q else - Qfloor (- q)).

(** [.astype(int)]: [NaN] cannot be cast ([ValueError]); an [object]
    column (absent after [get_dummies]) is refused as well. *)
Definition astype_int_col (c : column) : result column :=
  match c with
  | NumCol xs => if forallb (fun o => match o with Some _ => true | None => false end) xs
                 then Ok (NumCol (map (option_map trunc) xs)) else Err ValueError
  | StrCol _ => Err ValueError
  end.

Definition astype_int (X : frame) : result frame :=
  Scan.mapM (fun p => c <- astype_int_col (snd p) ;; Ok (fst p, c)) X.

Definition NUMERICAL_FEATURES : list string :=
  ["age_months"; "PatientWeight"; "num_distinct_drugs"; "num_antibiotics";
   "prescriber_antibiotic_rate"]%string.
Definition BINARY_FEATURES : list string :=
  ["has_antibiotic"; "antibiotic_combination"; "polypharmacy_flag"]%string.
Definition CATEGORICAL_FEATURES : list string :=
  ["age_stratum"; "Gender"; "VisitType"]%string.

(** [prepare_features(df)].  The in-place update of the caller's [df]
    (the filled weight column) is not part of the returned value. *)
Definition prepare_features (sqrt : Q -> Q) (df : frame) : result frame :=
  w <- getitem df "PatientWeight" ;;
  med <- median w ;;
  let df := setitem df "PatientWeight" (fillna w med) in
  num <- select df NUMERICAL_FEATURES ;;
  scaled <- fit_transform sqrt num ;;
  let num_scaled := combine (map (fun c => (c ++ "_scaled")%string) NUMERICAL_FEATURES)
                            (map NumCol scaled) in
  bin_df <- select df BINARY_FEATURES ;;
  cat <- select df CATEGORICAL_FEATURES ;;
  cat_df <- astype_int (get_dummies cat) ;;
  Ok (num_scaled ++ bin_df ++ cat_df).

End Features.

(** ** [apply_best_k] and the tail of [run] ([src/src/step3_clustering.py]) *)
Module Apply.
Import Features.

(** Length of the frame's index (the length of its columns); a frame
    without columns has an empty index that the assignment replaces. *)
Definition n_index (df : frame) : option nat :=
  match df with
  | [] => None
  | (_, c) :: _ => Some (col_len c)
  end.

(** The integer label array assigned as a column. *)
Definition label_column (labels : list nat) : column :=
  NumCol (map (fun l => Some (inject_Z (Z.of_nat l))) labels).

(** [labels = results[best_k]["labels"]; df["cluster"] = labels; return df]:
    [KeyError] when [best_k] is not a key; pandas raises [ValueError] when
    the array length differs from the index length. *)
Definition apply_best_k (df : frame) (gower_dist : list (list Q))
    (results : list (nat * Scan.candidate)) (best_k : nat) : result frame :=
  c <- match Dict.get results best_k with
       | Some c => Ok c
       | None => Err KeyError
       end ;;
  let labels := Scan.labels c in
  match n_index df with
  | Some len => if length labels =? len
                then Ok (setitem df "cluster" (label_column labels))
                else Err ValueError
  | None => Ok (setitem df "cluster" (label_column labels))
  end.

(** [gower_dist, results = compute_gower_and_cluster(feature_matrix, K_RANGE);
     best_k = plot_silhouette_scores(results);
     df = apply_best_k(df, gower_dist, results, best_k)], for a given
    feature matrix (its column names and rows) and range of [k]. *)
Definition cluster_and_apply (kmedoids_core : Z -> nat -> list (list Q) -> list nat)
    (df : frame) (columns : list string) (fm : list Gower.row) (k_range : list nat)
    : result (frame * list (list Q) * list (nat * Scan.candidate) * nat) :=
  r <- Scan.compute_gower_and_cluster kmedoids_core columns fm k_range ;;
  let (gower_dist, results) := r in
  best_k <- Scan.plot_silhouette_scores results ;;
  df' <- apply_best_k df gower_dist results best_k ;;
  Ok (df', gower_dist, results, best_k).

End Apply.

(** ** Concrete inputs *)
Module Scenarios.
Import Gower.

(** Four encounters forming two pairs of identical records. *)
Definition dup_columns : list string := ["age_months_scaled"; "Gender_F"]%string.
Definition dup_rows : list row := [[0; 1]; [0; 1]; [1; 0]; [1; 0]].

(** The k-medoids labelling when the same point is chosen twice as a medoid
    (k-medoids++ seeding does so once every remaining point is at distance 0
    from a chosen medoid; scikit-learn-extra then warns "Cluster 2 is
    empty!" and keeps the labels). *)
Definition dup_medoid_core (seed : Z) (k : nat) (D : list (list Q)) : list nat :=
  KMedoids.labels_from_medoids D [0; 2; 0]%nat.

(** A generator state given as the tape of its next raw draws; a bounded
    draw in [0, max] takes the next value modulo [max + 1].  Each initial
    tape stands for one initial state of numpy's global generator, which an
    unseeded process takes from the operating system. *)
Definition tape := list nat.

Definition tape_interval (st : tape) (max : nat) : nat * tape :=
  match st with
  | [] => (0%nat, [])
  | x :: t => (x mod S max, t)
  end.

(** A k-medoids run that takes the first [k] sampled points as medoids. *)
Definition first_medoids_core (seed : Z) (k : nat) (D : list (list Q)) : list nat :=
  KMedoids.labels_from_medoids D (seq 0 k).

(** The properties below do not depend on the ARI values. *)
Definition ari_zero (a b : list nat) : Q := 0.

(** Four encounters, the first two identical, in clusters 0, 0, 1, 2. *)
Definition boot_labels0 : list nat := [0; 0; 1; 2]%nat.
Definition boot_rows : list row := [[0; 1]; [0; 1]; [1; 0]; [2; 0]].

Definition run (best_k n_iter : nat) (st : tape) :=
  Bootstrap.bootstrap_validation tape tape_interval first_medoids_core ari_zero
    boot_labels0 dup_columns boot_rows best_k n_iter (3 # 4) st.

(** Five encounters with pairwise different records, and a two-column
    frame with one column per record field. *)
Definition scan_rows : list row := [[0; 1]; [1; 0]; [2; 1]; [3; 0]; [4; 1]].
Definition scan_df : Features.frame :=
  [("age_months", Features.NumCol [Some 0; Some 12; Some 24; Some 36; Some 48]);
   ("Gender", Features.StrCol [Some "F"; Some "M"; Some "F"; Some "M"; Some "F"])]%string.

(** Square root by four Newton steps from 1 (the values of the scaled
    columns play no part below). *)
Definition sqrt_newton (q : Q) : Q :=
  let step x := Qred ((x + q / x) / 2) in step (step (step (step 1))).

(** Two encounters; the second has no recorded [Gender]. *)
Definition gender_missing_df : Features.frame :=
  [("age_months", Features.NumCol [Some 24; Some 60]);
   ("PatientWeight", Features.NumCol [Some 12; None]);
   ("num_distinct_drugs", Features.NumCol [Some 2; Some 3]);
   ("num_antibiotics", Features.NumCol [Some 1; Some 0]);
   ("prescriber_antibiotic_rate", Features.NumCol [Some (1 # 2); Some (1 # 4)]);
   ("has_antibiotic", Features.NumCol [Some 1; Some 0]);
   ("antibiotic_combination", Features.NumCol [Some 0; Some 0]);
   ("polypharmacy_flag", Features.NumCol [Some 0; Some 1]);
   ("age_stratum", Features.StrCol [Some "preschool_2_4y"; Some "child_5_11y"]);
   ("Gender", Features.StrCol [Some "F"; None]);
   ("VisitType", Features.StrCol [Some "OPD"; Some "OPD"])]%string.

(** The same frame without its [Gender] column. *)
Definition no_gender_df : Features.frame :=
  filter (fun p => negb (String.eqb (fst p) "Gender")) gender_missing_df.

(** All the columns, no record. *)
Definition empty_df : Features.frame :=
  map (fun nm => (nm, Features.NumCol []))
      (Features.NUMERICAL_FEATURES ++ Features.BINARY_FEATURES ++
       Features.CATEGORICAL_FEATURES).

End Scenarios.

(** * Properties of the Gower distance *)

Module GowerFacts.
Import Gower.

Lemma nth_map_seq {A} (f : nat -> A) (s len k : nat) (d : A) :
  (k < len)%nat -> nth k (map f (seq s len)) d = f (s + k)%nat.
Proof.
  intro Hk. rewrite (nth_indep _ d (f s)) by (rewrite length_map, length_seq; lia).
  rewrite map_nth, seq_nth by lia. reflexivity.
Qed.

Lemma nth_map_lt {A B} (f : A -> B) (l : list A) (i : nat) (d : B) (d' : A) :
  (i < length l)%nat -> nth i (map f l) d = f (nth i l d').
Proof. intro H. rewrite (nth_indep _ d (f d')) by now rewrite length_map. apply map_nth. Qed.

Lemma sumQ_bounds (l : list Q) :
  (forall x, In x l -> 0 <= x <= 1) ->
  0 <= sumQ l <= inject_Z (Z.of_nat (length l)).
Proof.
  induction l as [|a l IH]; intro H; simpl.
  - unfold sumQ; simpl. split; apply Qle_refl.
  - unfold sumQ in *; simpl.
    rewrite Zpos_P_of_succ_nat, <- Z.add_1_r, inject_Z_plus.
    destruct (H a (or_introl eq_refl)).
    destruct IH as [IH1 IH2]; [intros x Hx; apply H; now right|].
    unfold inject_Z at 2. split; lra.
Qed.

Lemma sumQ_map_bounds {A} (f : A -> Q) (l : list A) :
  (forall c, In c l -> 0 <= f c <= 1) ->
  0 <= sumQ (map f l) <= inject_Z (Z.of_nat (length l)).
Proof.
  intro H. rewrite <- (length_map f l). apply sumQ_bounds.
  intros x Hx. apply in_map_iff in Hx as [c [<- Hc]]. now apply H.
Qed.

Lemma sumQ_zero (l : list Q) :
  (forall x, In x l -> x == 0) -> sumQ l == 0.
Proof.
  induction l as [|a l IH]; intro H; unfold sumQ in *; simpl.
  - reflexivity.
  - rewrite (H a (or_introl eq_refl)), IH by (intros; apply H; now right). reflexivity.
Qed.

Lemma fold_max_ge (l : list Q) (a x : Q) :
  In x (a :: l) -> x <= fold_left Qmax l a.
Proof.
  revert a x. induction l as [|b l IH]; intros a x Hx; simpl in *.
  - destruct Hx as [->|[]]. apply Qle_refl.
  - destruct Hx as [->|[->|Hx]].
    + apply Qle_trans with (Qmax x b); [apply Q.le_max_l|]. apply IH. now left.
    + apply Qle_trans with (Qmax a x); [apply Q.le_max_r|]. apply IH. now left.
    + apply IH. now right.
Qed.

Lemma fold_min_le (l : list Q) (a x : Q) :
  In x (a :: l) -> fold_left Qmin l a <= x.
Proof.
  revert a x. induction l as [|b l IH]; intros a x Hx; simpl in *.
  - destruct Hx as [->|[]]. apply Qle_refl.
  - destruct Hx as [->|[->|Hx]].
    + apply Qle_trans with (Qmin x b); [apply IH; now left|]. apply Q.le_min_l.
    + apply Qle_trans with (Qmin a x); [apply IH; now left|]. apply Q.le_min_r.
    + apply IH. now right.
Qed.

Lemma col_max_ge (l : list Q) (x : Q) : In x l -> x <= col_max l.
Proof. destruct l as [|a t]; [intros []|]. apply fold_max_ge. Qed.

Lemma col_min_le (l : list Q) (x : Q) : In x l -> col_min l <= x.
Proof. destruct l as [|a t]; [intros []|]. apply fold_min_le. Qed.

(** The per-column numeric term of [gower_get] lies in [0,1]. *)
Lemma num_term_bounds (mn mx x y : Q) :
  mn <= x <= mx -> mn <= y <= mx -> ~ mx == 0 ->
  let rg := Qabs (1 - mn / mx) in
  ~ rg == 0 ->
  0 <= Qabs (x / mx - y / mx) / rg <= 1.
Proof.
  intros Hx Hy Hmx rg Hrg.
  assert (Hpos : 0 < rg).
  { pose proof (Qabs_nonneg (1 - mn / mx)). unfold rg in *.
    apply Qle_lteq in H as [H|H]; [exact H|]. exfalso. apply Hrg. now rewrite H. }
  assert (Hle : Qabs (x / mx - y / mx) <= rg).
  { unfold rg.
    assert (E1 : x / mx - y / mx == (x - y) * / mx) by (field; exact Hmx).
    assert (E2 : 1 - mn / mx == (mx - mn) * / mx) by (field; exact Hmx).
    rewrite E1, E2, !Qabs_Qmult.
    apply Qmult_le_compat_r; [|apply Qabs_nonneg].
    rewrite (Qabs_pos (mx - mn)) by lra.
    apply Qabs_Qle_condition. lra. }
  split.
  - apply Qle_shift_div_l; [exact Hpos|]. rewrite Qmult_0_l. apply Qabs_nonneg.
  - apply Qle_shift_div_r; [exact Hpos|]. lra.
Qed.

End GowerFacts.

(** * The Gower loop in closed form *)

Module GowerLoop.
Import Gower GowerFacts.

Ltac nat_cases :=
  repeat match goal with
  | |- context [(?a =? ?b)%nat] => destruct (Nat.eqb_spec a b)
  | |- context [(?a <=? ?b)%nat] => destruct (Nat.leb_spec a b)
  | |- context [(?a <? ?b)%nat] => destruct (Nat.ltb_spec a b)
  end; simpl.

Section Closed.
Variable mask : list bool.
Variable data : list row.

Lemma res_of_length i : length (res_of mask data i) = (n_rows data - i)%nat.
Proof. unfold res_of. now rewrite length_map, length_seq. Qed.

Lemma res_of_nth i k :
  (i <= k < n_rows data)%nat ->
  nth (k - i) (res_of mask data i) 0 = gower_get mask data i k.
Proof. intro H. unfold res_of. rewrite nth_map_seq by lia. f_equal; lia. Qed.

Lemma loop_invariant m :
  (m <= n_rows data)%nat -> forall r c, (r < n_rows data)%nat -> (c < n_rows data)%nat ->
  fold_left (gower_loop mask data) (seq 0 m) (fun _ _ => 0) r c =
  if (Nat.min r c <? m)%nat
  then gower_get mask data (Nat.min r c) (Nat.max r c) else 0.
Proof.
  induction m as [|m IH]; intros Hm r c Hr Hc.
  - reflexivity.
  - rewrite seq_S, fold_left_app. simpl (fold_left _ [_] _).
    unfold gower_loop, col_write, row_write. rewrite !res_of_length.
    nat_cases; try lia;
      try (rewrite res_of_nth by lia); try (rewrite IH by lia);
      nat_cases; try lia; try reflexivity; f_equal; lia.
Qed.

Lemma gower_matrix_entry i j :
  (i < n_rows data)%nat -> (j < n_rows data)%nat ->
  mat_get (gower_matrix mask data) i j
  = gower_get mask data (Nat.min i j) (Nat.max i j).
Proof.
  intros Hi Hj. unfold mat_get, gower_matrix.
  rewrite (nth_map_seq (fun r => map (gower_matrix_fn mask data r) (seq 0 (n_rows data))))
    by exact Hi.
  rewrite nth_map_seq by exact Hj. simpl.
  unfold gower_matrix_fn. rewrite loop_invariant by lia.
  nat_cases; [reflexivity| lia].
Qed.

End Closed.
End GowerLoop.

(** * Entry-wise bounds of [gower_get] *)

Module GowerBounds.
Import Gower GowerFacts.

Ltac map_bounds :=
  match goal with
  | |- 0 <= sumQ (map ?f (seq ?s ?k)) <= _ =>
      pose proof (sumQ_map_bounds f (seq s k)) as HB;
      rewrite length_seq in HB; apply HB
  end.

Section Bounds.
Variable mask : list bool.
Variable data : list row.
Hypothesis Hmask : (1 <= length mask)%nat.

Lemma num_cols_le : (num_cols mask <= length mask)%nat.
Proof. unfold num_cols. apply filter_length_le. Qed.

Lemma num_range_nth c :
  (c < num_cols mask)%nat ->
  nth c (num_ranges mask data) 0 =
  (let mx := col_max (column (Z_num mask data) c) in
   let mn := col_min (column (Z_num mask data) c) in
   if Qeq_bool mx 0 then 0 else Qabs (1 - mn / mx)).
Proof. intro Hc. unfold num_ranges. now rewrite nth_map_seq. Qed.

Lemma num_max_nth c :
  (c < num_cols mask)%nat ->
  nth c (num_max mask data) 0 = col_max (column (Z_num mask data) c).
Proof. intro Hc. unfold num_max. now rewrite nth_map_seq. Qed.

Lemma scaled_nth i c :
  (i < n_rows data)%nat -> (c < num_cols mask)%nat ->
  nth c (nth i (Z_num_scaled mask data) []) 0 =
  (let mx := col_max (column (Z_num mask data) c) in
   if Qeq_bool mx 0 then 0 else nth c (nth i (Z_num mask data) []) 0 / mx).
Proof.
  intros Hi Hc. unfold Z_num_scaled.
  rewrite (nth_map_lt _ _ _ _ [])
    by (unfold Z_num, n_rows in *; rewrite !length_map; exact Hi).
  rewrite nth_map_seq by exact Hc. simpl. now rewrite num_max_nth.
Qed.

Lemma Z_num_in_column i c :
  (i < n_rows data)%nat ->
  In (nth c (nth i (Z_num mask data) []) 0) (column (Z_num mask data) c).
Proof.
  intro Hi. unfold column.
  change (nth c (nth i (Z_num mask data) []) 0)
    with ((fun r => nth c r 0) (nth i (Z_num mask data) [])).
  apply in_map, nth_In. unfold Z_num, n_rows in *. now rewrite length_map.
Qed.

Lemma num_term_in_unit i j c :
  (i < n_rows data)%nat -> (j < n_rows data)%nat -> (c < num_cols mask)%nat ->
  let rg := nth c (num_ranges mask data) 0 in
  0 <= (if Qeq_bool rg 0 then 0
        else Qabs (nth c (nth i (Z_num_scaled mask data) []) 0
                   - nth c (nth j (Z_num_scaled mask data) []) 0) / rg) <= 1.
Proof.
  intros Hi Hj Hc rg. unfold rg.
  rewrite num_range_nth, !scaled_nth by assumption. cbv zeta.
  set (col := column (Z_num mask data) c).
  destruct (Qeq_bool (col_max col) 0) eqn:Emx.
  - simpl. split; [apply Qle_refl| discriminate].
  - destruct (Qeq_bool (Qabs (1 - col_min col / col_max col)) 0) eqn:Erg.
    + split; [apply Qle_refl| discriminate].
    + apply num_term_bounds.
      * split; [apply col_min_le|apply col_max_ge]; apply Z_num_in_column; exact Hi.
      * split; [apply col_min_le|apply col_max_ge]; apply Z_num_in_column; exact Hj.
      * now apply Qeq_bool_neq.
      * now apply Qeq_bool_neq.
Qed.

Lemma weight_sum_pos : 0 < weight_sum mask.
Proof.
  unfold weight_sum. destruct (length mask) as [|p] eqn:E; [lia|].
  unfold Qlt; simpl. lia.
Qed.

Lemma gower_get_in_unit i j :
  (i < n_rows data)%nat -> (j < n_rows data)%nat ->
  0 <= gower_get mask data i j <= 1.
Proof.
  intros Hi Hj. unfold gower_get.
  set (sc := sumQ (map _ (seq 0 (length mask - num_cols mask)))).
  set (sn := sumQ (map _ (seq 0 (num_cols mask)))).
  assert (Hsc : 0 <= sc <= inject_Z (Z.of_nat (length mask - num_cols mask))).
  { unfold sc. map_bounds. intros c _.
    destruct (Qeq_bool _ _); split; discriminate. }
  assert (Hsn : 0 <= sn <= inject_Z (Z.of_nat (num_cols mask))).
  { unfold sn. map_bounds. intros c Hc.
    apply in_seq in Hc. apply num_term_in_unit; lia. }
  assert (Hw : inject_Z (Z.of_nat (length mask - num_cols mask))
               + inject_Z (Z.of_nat (num_cols mask)) == weight_sum mask).
  { unfold weight_sum. rewrite <- inject_Z_plus, <- Nat2Z.inj_add.
    pose proof num_cols_le. now replace (length mask - num_cols mask + num_cols mask)%nat
      with (length mask) by lia. }
  pose proof weight_sum_pos. split.
  - apply Qle_shift_div_l; [assumption|]. lra.
  - apply Qle_shift_div_r; [assumption|]. lra.
Qed.

Lemma gower_get_diag i : gower_get mask data i i == 0.
Proof.
  unfold gower_get.
  rewrite (sumQ_zero (map _ (seq 0 (length mask - num_cols mask)))).
  2:{ intros x Hx. apply in_map_iff in Hx as [c [<- _]]. now rewrite Qeq_bool_refl. }
  rewrite (sumQ_zero (map _ (seq 0 (num_cols mask)))).
  2:{ intros x Hx. apply in_map_iff in Hx as [c [<- _]]. cbv zeta.
      destruct (Qeq_bool _ 0); [reflexivity|].
      setoid_replace (nth c (nth i (Z_num_scaled mask data) []) 0
                      - nth c (nth i (Z_num_scaled mask data) []) 0) with 0 by ring.
      unfold Qdiv. now rewrite Qmult_0_l. }
  unfold Qdiv. now rewrite Qmult_0_l.
Qed.

End Bounds.
End GowerBounds.

Module DistanceClaims.
Import Gower GowerLoop GowerBounds.

(** Claim C2: for a feature matrix with at least one column (in particular
    every valid one, with at least 2 rows), the matrix returned by
    [gower.gower_matrix(fm, cat_features=cat_mask)] is [n x n], symmetric,
    has a zero diagonal, and all its entries lie in [0,1]. *)
Theorem gower_matrix_valid (columns : list string) (data : list row) :
  (1 <= length columns)%nat ->
  let D := gower_matrix (cat_mask columns) data in
  length D = length data /\
  forall i j, (i < length data)%nat -> (j < length data)%nat ->
    mat_get D i j = mat_get D j i /\ mat_get D i i == 0 /\ 0 <= mat_get D i j <= 1.
Proof.
  intros Hcols D.
  assert (Hm : (1 <= length (cat_mask columns))%nat)
    by (unfold cat_mask; now rewrite length_map).
  split.
  - unfold D, gower_matrix, n_rows. now rewrite length_map, length_seq.
  - intros i j Hi Hj. unfold D.
    rewrite !gower_matrix_entry by exact Hi || exact Hj.
    rewrite (Nat.min_comm j i), (Nat.max_comm j i), Nat.min_id, Nat.max_id.
    split; [reflexivity|]. split.
    + apply gower_get_diag.
    + apply gower_get_in_unit; [exact Hm| |]; unfold n_rows; lia.
Qed.

Lemma gower_matrix_valid_witness :
  (1 <= length ["age_months_scaled"; "Gender_F"]%string)%nat /\
  length (gower_matrix (cat_mask ["age_months_scaled"; "Gender_F"]%string)
            [[-1; 0]; [1; 1]; [0; 1]]) = 3%nat.
Proof.
  split; [simpl; lia|].
  apply (proj1 (gower_matrix_valid ["age_months_scaled"; "Gender_F"]%string
                  [[-1; 0]; [1; 1]; [0; 1]] ltac:(simpl; lia))).
Defined.

End DistanceClaims.
(** * Facts about the scan and the choice of k *)

Module ScanFacts.
Import Scan.

Lemma insert_sorted_perm x l : Permutation (x :: l) (insert_sorted x l).
Proof.
  induction l as [|y t IH]; simpl; [reflexivity|].
  destruct (x <=? y); [reflexivity|].
  etransitivity; [apply perm_swap|]. now apply perm_skip.
Qed.

Lemma sort_nat_perm l : Permutation l (sort_nat l).
Proof.
  induction l as [|x t IH]; simpl; [reflexivity|].
  etransitivity; [apply perm_skip, IH|]. apply insert_sorted_perm.
Qed.

Lemma dict_get_in {A} (d : list (nat * A)) k v :
  Dict.get d k = Some v -> In k (Dict.keys d).
Proof.
  induction d as [|[k' v'] t IH]; simpl; [discriminate|].
  destruct (Nat.eqb_spec k k') as [->|_]; [now left|]. intro H; right; now apply IH.
Qed.

Lemma mapM_nth {A B} (f : A -> result B) l ys (da : A) (db : B) :
  mapM f l = Ok ys ->
  length ys = length l /\
  forall p, (p < length l)%nat -> f (nth p l da) = Ok (nth p ys db).
Proof.
  revert ys. induction l as [|x t IH]; intros ys H; simpl in H.
  - inversion H; subst. split; [reflexivity|]. simpl; intros; lia.
  - destruct (f x) as [y|] eqn:Fx; [|discriminate]. simpl in H.
    destruct (mapM f t) as [ys'|] eqn:Ft; [|discriminate]. simpl in H.
    inversion H; subst. destruct (IH ys' eq_refl) as [Hl Hn].
    split; [simpl; now rewrite Hl|].
    intros [|p] Hp; simpl; [exact Fx|]. apply Hn. simpl in Hp. lia.
Qed.

Lemma argmax_from_spec t : forall pre best bv,
  (best < length pre)%nat -> nth best pre 0 = bv ->
  (forall p, (p < length pre)%nat -> nth p pre 0 <= bv) ->
  let r := argmax_from t (length pre - 1) best bv in
  (r < length (pre ++ t))%nat /\
  forall p, (p < length (pre ++ t))%nat -> nth p (pre ++ t) 0 <= nth r (pre ++ t) 0.
Proof.
  induction t as [|x t IH]; intros pre best bv Hb Hbv Hall r.
  - unfold r; simpl. rewrite app_nil_r. split; [exact Hb|].
    intros p Hp. rewrite Hbv. now apply Hall.
  - unfold r; simpl.
    replace (pre ++ x :: t) with ((pre ++ [x]) ++ t) by now rewrite <- app_assoc.
    assert (Hlen : length (pre ++ [x]) = S (length pre)) by (rewrite length_app; simpl; lia).
    destruct (Qle_bool x bv) eqn:E.
    + apply Qle_bool_iff in E.
      replace (S (length pre - 1)) with (length (pre ++ [x]) - 1)%nat by lia.
      apply IH.
      * lia.
      * rewrite app_nth1 by lia. exact Hbv.
      * intros p Hp. destruct (Nat.ltb_spec p (length pre)).
        -- rewrite app_nth1 by lia. now apply Hall.
        -- rewrite app_nth2 by lia. replace (p - length pre)%nat with 0%nat by lia.
           exact E.
    + assert (Hlt : bv < x) by (apply Qnot_le_lt; intro C; apply Qle_bool_iff in C; congruence).
      replace (S (length pre - 1)) with (length (pre ++ [x]) - 1)%nat by lia.
      apply IH.
      * lia.
      * rewrite app_nth2 by lia. replace (length (pre ++ [x]) - 1 - length pre)%nat
          with 0%nat by lia. reflexivity.
      * intros p Hp. destruct (Nat.ltb_spec p (length pre)).
        -- rewrite app_nth1 by lia. apply Qle_trans with bv; [now apply Hall|].
           now apply Qlt_le_weak.
        -- rewrite app_nth2 by lia. replace (p - length pre)%nat with 0%nat by lia.
           apply Qle_refl.
Qed.

Lemma argmax_spec l i :
  argmax l = Ok i ->
  (i < length l)%nat /\ forall p, (p < length l)%nat -> nth p l 0 <= nth i l 0.
Proof.
  destruct l as [|x t]; simpl; [discriminate|]. intro H; inversion H; subst.
  pose proof (argmax_from_spec t [x] 0 x) as S. simpl in S.
  apply S; [lia|reflexivity|]. intros [|p] Hp; [apply Qle_refl|simpl in Hp; lia].
Qed.

End ScanFacts.

Module ScanLoop.
Import Scan.

Lemma get_set {A} (d : list (nat * A)) k v k' :
  Dict.get (Dict.set d k v) k' = if k' =? k then Some v else Dict.get d k'.
Proof.
  induction d as [|[k0 v0] t IH]; simpl.
  - destruct (k' =? k); reflexivity.
  - destruct (Nat.eqb_spec k k0) as [->|Hk]; simpl.
    + destruct (Nat.eqb_spec k' k0); reflexivity.
    + destruct (Nat.eqb_spec k' k0) as [->|]; simpl.
      * destruct (Nat.eqb_spec k0 k); [congruence|reflexivity].
      * exact IH.
Qed.

Lemma fit_predict_spec kc seed k D :
  KMedoids.fit_predict kc seed k D =
  if (1 <=? k) && (k <=? length D) then Ok (kc seed k D) else Err ValueError.
Proof.
  unfold KMedoids.fit_predict.
  destruct (Nat.eqb_spec k 0) as [->|]; [reflexivity|].
  destruct (Nat.leb_spec 1 k); [|lia].
  destruct (Nat.ltb_spec (length D) k); destruct (Nat.leb_spec k (length D)); simpl;
    first [reflexivity | lia].
Qed.

Section Loop.
Variable kc : Z -> nat -> list (list Q) -> list nat.
Variable D : list (list Q).

Lemma scan_loop_err ks : forall acc,
  (exists k, In k ks /\ k_accepted kc D k = false) ->
  scan_loop kc D ks acc = Err ValueError.
Proof.
  induction ks as [|k ks IH]; intros acc [k0 [Hin Hk0]]; [destruct Hin|].
  simpl. rewrite fit_predict_spec.
  destruct Hin as [E|Hin].
  - subst k0. unfold k_accepted in Hk0.
    destruct ((1 <=? k) && (k <=? length D)); simpl; [|reflexivity].
    unfold Silhouette.silhouette_score, Silhouette.n_samples.
    simpl in Hk0. rewrite Hk0. reflexivity.
  - destruct ((1 <=? k) && (k <=? length D)); simpl; [|reflexivity].
    unfold Silhouette.silhouette_score.
    destruct ((1 <? n_distinct (kc 42%Z k D))%nat
              && (n_distinct (kc 42%Z k D) <? Silhouette.n_samples (kc 42%Z k D))%nat);
      simpl; [|reflexivity].
    apply IH. now exists k0.
Qed.

Lemma scan_loop_ok ks : forall acc,
  (forall k, In k ks -> k_accepted kc D k = true) ->
  exists results, scan_loop kc D ks acc = Ok results /\
  (forall k, In k ks -> exists sil,
      Dict.get results k = Some (mk_candidate (kc 42%Z k D) sil)) /\
  (forall k, ~ In k ks -> Dict.get results k = Dict.get acc k).
Proof.
  induction ks as [|k ks IH]; intros acc Hall.
  - exists acc. split; [reflexivity|]. split; [intros k []|]. reflexivity.
  - simpl. rewrite fit_predict_spec.
    pose proof (Hall k (or_introl eq_refl)) as Hk. unfold k_accepted in Hk.
    apply andb_true_iff in Hk as [Hk Hn2]. apply andb_true_iff in Hk as [Hk Hn1].
    rewrite Hk. simpl.
    unfold Silhouette.silhouette_score at 1, Silhouette.n_samples.
    rewrite Hn1, Hn2. simpl.
    set (sil := Silhouette.mean _).
    destruct (IH (Dict.set acc k (mk_candidate (kc 42%Z k D) sil)))
      as [res [Hr [Hin Hout]]]; [intros; apply Hall; now right|].
    exists res. split; [exact Hr|]. split.
    + intros k' [E|Hk'].
      * subst k'. destruct (in_dec Nat.eq_dec k ks) as [Hi|Hni]; [now apply Hin|].
        exists sil. rewrite Hout by exact Hni. rewrite get_set, Nat.eqb_refl. reflexivity.
      * now apply Hin.
    + intros k' Hk'. rewrite Hout by (intro; apply Hk'; now right).
      rewrite get_set. destruct (Nat.eqb_spec k' k); [|reflexivity].
      exfalso. apply Hk'. now left.
Qed.

End Loop.

Lemma num_cols_cat_mask columns :
  (0 <? Gower.num_cols (Gower.cat_mask columns))%nat =
  existsb (fun c => Gower.endswith c "_scaled") columns.
Proof.
  unfold Gower.num_cols, Gower.cat_mask.
  induction columns as [|c cs IH]; [reflexivity|]. simpl.
  destruct (Gower.endswith c "_scaled"); simpl; [reflexivity|exact IH].
Qed.

Lemma gower_checked_ok columns fm :
  columns <> [] -> fm <> [] ->
  Gower.gower_matrix_checked (Gower.cat_mask columns) fm =
  Ok (Gower.gower_matrix (Gower.cat_mask columns) fm).
Proof.
  intros Hc Hf. unfold Gower.gower_matrix_checked.
  destruct fm as [|r fm]; [congruence|]. simpl. rewrite andb_false_r.
  destruct columns as [|c cs]; [congruence|]. reflexivity.
Qed.

Lemma scan_loop_seed42 (kc1 kc2 : Z -> nat -> list (list Q) -> list nat) D ks :
  (forall k D', kc1 42%Z k D' = kc2 42%Z k D') ->
  forall acc, scan_loop kc1 D ks acc = scan_loop kc2 D ks acc.
Proof.
  intro H. induction ks as [|k ks IH]; intro acc; simpl; [reflexivity|].
  rewrite !fit_predict_spec, H.
  destruct ((1 <=? k) && (k <=? length D)); simpl; [|reflexivity].
  destruct (Silhouette.silhouette_score D (kc2 42%Z k D)); simpl; [apply IH|reflexivity].
Qed.

End ScanLoop.

Module ScanClaims.
Import Scan ScanFacts.

(** Claim C3: whenever [plot_silhouette_scores] returns a [best_k] for a
    candidate table, [best_k] is a key of the table and its silhouette is
    greater than or equal to the silhouette of every candidate in the table. *)
Theorem best_k_has_max_silhouette (results : list (nat * candidate)) (best_k : nat) :
  plot_silhouette_scores results = Ok best_k ->
  exists cb, Dict.get results best_k = Some cb /\
  forall k c, Dict.get results k = Some c -> silhouette c <= silhouette cb.
Proof.
  unfold plot_silhouette_scores.
  set (ks := sort_nat (Dict.keys results)).
  set (f := fun k => match Dict.get results k with
                     | Some c => Ok (silhouette c) | None => Err KeyError end).
  destruct (mapM f ks) as [sils|] eqn:Hm; simpl; [|discriminate].
  destruct (argmax sils) as [i|] eqn:Ha; simpl; [|discriminate].
  intro H; inversion H; subst best_k; clear H.
  destruct (mapM_nth f ks sils 0%nat 0 Hm) as [Hlen Hnth].
  destruct (argmax_spec sils i Ha) as [Hi Hmax].
  pose proof (Hnth i ltac:(lia)) as Fi. unfold f in Fi.
  destruct (Dict.get results (nth i ks 0%nat)) as [cb|] eqn:Gb; [|discriminate].
  inversion Fi as [Ei]. exists cb. split; [reflexivity|].
  intros k c Gk.
  assert (Hin : In k ks)
    by (eapply Permutation_in; [apply sort_nat_perm|]; eapply dict_get_in; exact Gk).
  apply In_nth with (d := 0%nat) in Hin as [p [Hp Ep]].
  pose proof (Hnth p Hp) as Fp. unfold f in Fp. rewrite Ep, Gk in Fp.
  inversion Fp as [Ep']. rewrite Ep', Ei. apply Hmax. lia.
Qed.

Lemma best_k_has_max_silhouette_witness :
  plot_silhouette_scores
    [(3%nat, mk_candidate [0;1;2]%nat (1#4)); (4%nat, mk_candidate [0;1;2;3]%nat (1#2));
     (5%nat, mk_candidate [0;1;2;3;4]%nat (1#3))] = Ok 4%nat /\
  exists cb, Dict.get
    [(3%nat, mk_candidate [0;1;2]%nat (1#4)); (4%nat, mk_candidate [0;1;2;3]%nat (1#2));
     (5%nat, mk_candidate [0;1;2;3;4]%nat (1#3))] 4%nat = Some cb /\
  forall k c, Dict.get
    [(3%nat, mk_candidate [0;1;2]%nat (1#4)); (4%nat, mk_candidate [0;1;2;3]%nat (1#2));
     (5%nat, mk_candidate [0;1;2;3;4]%nat (1#3))] k = Some c -> silhouette c <= silhouette cb.
Proof.
  split; [vm_compute; reflexivity|].
  apply best_k_has_max_silhouette. vm_compute. reflexivity.
Defined.

(** Claim C7 (counterexample): on two pairs of identical records, with a
    clusterer run that leaves one of the 3 requested clusters empty, the
    scan neither raises nor skips [k = 3]: it stores for [k = 3] a labelling
    with only 2 non-empty clusters. *)
Lemma scan_stores_fewer_clusters_than_k :
  match compute_gower_and_cluster Scenarios.dup_medoid_core Scenarios.dup_columns
          Scenarios.dup_rows [3%nat] with
  | Ok (_, [(k, c)]) => k = 3%nat /\ n_distinct (labels c) = 2%nat
  | _ => False
  end.
Proof. vm_compute. split; reflexivity. Qed.

(** Claim C7 (as amended): for a feature matrix without missing values,
    [gower_matrix] raises [IndexError] when there is no feature column and
    [ValueError] when there is no record but a numerical ([_scaled])
    column.  With at least one column and one record, the scan defines no
    degeneracy error and skips nothing.  If some [k] of the range is
    rejected (by [KMedoids.fit] because [k = 0] or [k > n], or by
    [silhouette_score] because the labels have fewer than 2 or more than
    [n - 1] distinct values), the whole scan raises [ValueError]; otherwise
    every [k] of the range is stored with exactly the labels the clusterer
    returned, however many clusters they populate. *)
Theorem scan_aborts_or_stores_unchecked_labels
    (kc : Z -> nat -> list (list Q) -> list nat)
    (columns : list string) (fm : list Gower.row) (ks : list nat) :
  let D := Gower.gower_matrix (Gower.cat_mask columns) fm in
  (columns = [] -> compute_gower_and_cluster kc columns fm ks = Err IndexError) /\
  (fm = [] -> existsb (fun c => Gower.endswith c "_scaled") columns = true ->
     compute_gower_and_cluster kc columns fm ks = Err ValueError) /\
  (columns <> [] -> fm <> [] ->
     (exists k, In k ks /\ k_accepted kc D k = false) ->
     compute_gower_and_cluster kc columns fm ks = Err ValueError) /\
  (columns <> [] -> fm <> [] ->
     (forall k, In k ks -> k_accepted kc D k = true) ->
     exists results, compute_gower_and_cluster kc columns fm ks = Ok (D, results) /\
     forall k, In k ks ->
       exists sil, Dict.get results k = Some (mk_candidate (kc 42%Z k D) sil)).
Proof.
  intro D. unfold compute_gower_and_cluster. split; [|split; [|split]].
  - intros ->. reflexivity.
  - intros -> Hs. unfold Gower.gower_matrix_checked.
    rewrite (ScanLoop.num_cols_cat_mask columns), Hs. reflexivity.
  - intros Hc Hf H. rewrite (ScanLoop.gower_checked_ok columns fm Hc Hf). cbn [bind]. fold D.
    now rewrite (ScanLoop.scan_loop_err kc D ks [] H).
  - intros Hc Hf H. rewrite (ScanLoop.gower_checked_ok columns fm Hc Hf). cbn [bind]. fold D.
    destruct (ScanLoop.scan_loop_ok kc D ks [] H) as [res [Hr [Hin _]]].
    exists res. rewrite Hr. split; [reflexivity|exact Hin].
Qed.

Lemma scan_aborts_or_stores_unchecked_labels_witness :
  compute_gower_and_cluster Scenarios.dup_medoid_core [] Scenarios.dup_rows [3%nat]
    = Err IndexError /\
  compute_gower_and_cluster Scenarios.dup_medoid_core Scenarios.dup_columns [] [3%nat]
    = Err ValueError /\
  exists results,
    compute_gower_and_cluster Scenarios.dup_medoid_core Scenarios.dup_columns
      Scenarios.dup_rows [3%nat]
    = Ok (Gower.gower_matrix (Gower.cat_mask Scenarios.dup_columns) Scenarios.dup_rows,
          results) /\
    forall k, In k [3%nat] -> exists sil, Dict.get results k =
      Some (mk_candidate (Scenarios.dup_medoid_core 42%Z k
             (Gower.gower_matrix (Gower.cat_mask Scenarios.dup_columns) Scenarios.dup_rows)) sil).
Proof.
  split; [|split].
  - apply (proj1 (scan_aborts_or_stores_unchecked_labels Scenarios.dup_medoid_core
                    [] Scenarios.dup_rows [3%nat])). reflexivity.
  - apply (proj1 (proj2 (scan_aborts_or_stores_unchecked_labels Scenarios.dup_medoid_core
                           Scenarios.dup_columns [] [3%nat]))); reflexivity.
  - apply (proj2 (proj2 (proj2 (scan_aborts_or_stores_unchecked_labels
                    Scenarios.dup_medoid_core Scenarios.dup_columns Scenarios.dup_rows
                    [3%nat])))); [discriminate|discriminate|].
    intros k [<-|[]]. vm_compute. reflexivity.
Defined.

End ScanClaims.


(** * Invariants of the bootstrap accumulation *)

Module BootFacts.
Import Gower Bootstrap.

Definition co_le_count (co cnt : counts) : Prop := forall i j, (co i j <= cnt i j)%nat.

Ltac split_ifs :=
  repeat match goal with
  | |- context [if ?c then _ else _] => destruct c
  end.

Lemma pair_update_inv idx L cm ab :
  co_le_count (fst cm) (snd cm) ->
  co_le_count (fst (pair_update idx L cm ab)) (snd (pair_update idx L cm ab)).
Proof.
  destruct cm as [co cnt], ab as [a b]. unfold pair_update, co_le_count. intros H i j.
  specialize (H i j). simpl in *. unfold incr. split_ifs; simpl; lia.
Qed.

Lemma update_coassoc_inv idx L cm :
  co_le_count (fst cm) (snd cm) ->
  co_le_count (fst (update_coassoc idx L cm)) (snd (update_coassoc idx L cm)).
Proof.
  unfold update_coassoc. generalize (pairs (length idx)) as ps.
  intro ps. revert cm. induction ps as [|ab ps IH]; intros cm H; [exact H|].
  change (fold_left (pair_update idx L) (ab :: ps) cm)
    with (fold_left (pair_update idx L) ps (pair_update idx L cm ab)).
  apply IH. apply pair_update_inv. exact H.
Qed.

Lemma ratio_in_unit (a b : nat) :
  (a <= b)%nat -> (0 < b)%nat ->
  0 <= inject_Z (Z.of_nat a) / inject_Z (Z.of_nat b) <= 1.
Proof.
  intros Hab Hb.
  assert (Hb' : 0 < inject_Z (Z.of_nat b)) by (change 0 with (inject_Z 0); rewrite <- Zlt_Qlt; lia).
  assert (Ha' : 0 <= inject_Z (Z.of_nat a)) by (change 0 with (inject_Z 0); rewrite <- Zle_Qle; lia).
  assert (Hab' : inject_Z (Z.of_nat a) <= inject_Z (Z.of_nat b)) by (rewrite <- Zle_Qle; lia).
  split.
  - apply Qle_shift_div_l; [exact Hb'|]. lra.
  - apply Qle_shift_div_r; [exact Hb'|]. lra.
Qed.

Lemma stability_of_in_unit co cnt i j :
  co_le_count co cnt -> 0 <= stability_of co cnt i j <= 1.
Proof.
  intro H. unfold stability_of.
  destruct (Nat.ltb_spec 0 (cnt i j)).
  - apply ratio_in_unit; [apply H|lia].
  - split; [apply Qle_refl|discriminate].
Qed.

Section Run.
Variable rng_state : Type.
Variable random_interval : rng_state -> nat -> nat * rng_state.
Variable kmedoids_core : Z -> nat -> list (list Q) -> list nat.
Variable adjusted_rand_score : list nat -> list nat -> Q.
Variable original_labels : list nat.
Variable columns : list string.
Variable feature_matrix : list row.
Variable best_k : nat.

Local Abbreviation trial' := (trial rng_state random_interval kmedoids_core adjusted_rand_score
                             original_labels columns feature_matrix best_k).
Local Abbreviation iterate' := (iterate rng_state random_interval kmedoids_core adjusted_rand_score
                             original_labels columns feature_matrix best_k).
Local Abbreviation draw' := (draw rng_state random_interval kmedoids_core
                           original_labels columns feature_matrix best_k).

(** Unfolds one trial into its cases. *)
Lemma trial_cases m i s :
  match draw' m i (rng s) with
  | Err e => trial' m i s = Err e
  | Ok (idx, gd, L, st') =>
      let orig := map (fun j => nth j original_labels 0%nat) idx in
      let cm := update_coassoc idx L (coassoc s, count_matrix s) in
      if (1 <? n_distinct L)%nat then
        match Silhouette.silhouette_score gd L with
        | Err e => trial' m i s = Err e
        | Ok sil => trial' m i s =
            Ok (mk_acc st' (fst cm) (snd cm)
                  (ari_acc s ++ [adjusted_rand_score orig L])
                  (sil_acc s ++ [sil]))
        end
      else trial' m i s =
            Ok (mk_acc st' (fst cm) (snd cm)
                  (ari_acc s ++ [adjusted_rand_score orig L])
                  (sil_acc s))
  end.
Proof.
  unfold trial. destruct (draw' m i (rng s)) as [[[[idx gd] L] st']|e]; simpl;
    [|reflexivity].
  destruct (1 <? n_distinct L)%nat; simpl; [|reflexivity].
  destruct (Silhouette.silhouette_score gd L); reflexivity.
Qed.

Lemma trial_inv m i s s' :
  trial' m i s = Ok s' ->
  co_le_count (coassoc s) (count_matrix s) ->
  co_le_count (coassoc s') (count_matrix s').
Proof.
  intros Ht Hs. pose proof (trial_cases m i s) as C.
  destruct (draw' m i (rng s)) as [[[[idx gd] L] st']|e]; [|congruence].
  cbv zeta in C.
  destruct (1 <? n_distinct L)%nat;
    [destruct (Silhouette.silhouette_score gd L); [|congruence]|];
    rewrite Ht in C; inversion C; subst; simpl;
    apply (update_coassoc_inv idx L (coassoc s, count_matrix s)); exact Hs.
Qed.

Lemma iterate_inv m r : forall i s s',
  iterate' m i r s = Ok s' ->
  co_le_count (coassoc s) (count_matrix s) ->
  co_le_count (coassoc s') (count_matrix s').
Proof.
  induction r as [|r IH]; intros i s s' H Hs; simpl in H.
  - inversion H; subst. exact Hs.
  - destruct (trial' m i s) as [s1|e] eqn:E; simpl in H; [|discriminate].
    eapply IH; [exact H|]. eapply trial_inv; eassumption.
Qed.

(** A successful loop computed its sample size and ran all iterations. *)
Lemma bootstrap_loop_ok n_iter frac st s :
  bootstrap_loop rng_state random_interval kmedoids_core adjusted_rand_score
    original_labels columns feature_matrix best_k n_iter frac st = Ok s ->
  exists m, sample_size_of original_labels frac = Ok m /\
  iterate' m 0 n_iter (mk_acc st (fun _ _ => 0%nat) (fun _ _ => 0%nat) [] []) = Ok s.
Proof.
  unfold bootstrap_loop. destruct (sample_size_of original_labels frac) as [m|e];
    cbn [bind]; [|discriminate].
  intro H. exists m. split; [reflexivity|exact H].
Qed.

Lemma bootstrap_loop_inv n_iter frac st s :
  bootstrap_loop rng_state random_interval kmedoids_core adjusted_rand_score
    original_labels columns feature_matrix best_k n_iter frac st = Ok s ->
  co_le_count (coassoc s) (count_matrix s).
Proof.
  intro H. apply bootstrap_loop_ok in H as [m [_ H]].
  eapply iterate_inv; [exact H|].
  intros i j. simpl. lia.
Qed.

End Run.
End BootFacts.

(** * The per-cluster stability scores *)

Module StabilityFacts.
Import Bootstrap.

(** The value [cluster_stability_of] stores for cluster [c]. *)
Definition cs_value (original_labels : list nat) (stab : nat -> nat -> Q) (c : nat) : Q :=
  let members := members_of original_labels c in
  if (1 <? length members)%nat
  then match nanmean (member_block stab members) with Some v => v | None => 0 end
  else 1.

(** Ordered pairs of distinct members. *)
Definition distinct_pairs (ms : list nat) : list (nat * nat) :=
  filter (fun p => negb (fst p =? snd p)) (list_prod ms ms).

Lemma fold_left_ext_step {A B} (f g : A -> B -> A) (l : list B) :
  (forall a b, f a b = g a b) -> forall a, fold_left f l a = fold_left g l a.
Proof.
  intro H. induction l as [|b l IH]; intro a; simpl; [reflexivity|].
  rewrite H. apply IH.
Qed.

Lemma fold_set_get (f : nat -> Q) (l : list nat) : forall d c,
  Dict.get (fold_left (fun d c => Dict.set d c (f c)) l d) c =
  if existsb (Nat.eqb c) l then Some (f c) else Dict.get d c.
Proof.
  induction l as [|x l IH]; intros d c; simpl; [reflexivity|].
  rewrite IH, ScanLoop.get_set.
  destruct (existsb (Nat.eqb c) l) eqn:E; [now rewrite orb_true_r|].
  rewrite orb_false_r. destruct (Nat.eqb_spec c x); subst; reflexivity.
Qed.

Lemma cluster_stability_get original_labels stab c :
  In c original_labels ->
  Dict.get (cluster_stability_of original_labels stab) c =
  Some (cs_value original_labels stab c).
Proof.
  intro Hin. unfold cluster_stability_of.
  rewrite (fold_left_ext_step _ (fun d c => Dict.set d c (cs_value original_labels stab c)))
    by (intros d x; unfold cs_value; cbv zeta;
        destruct (1 <? length (members_of original_labels x))%nat; reflexivity).
  rewrite fold_set_get.
  replace (existsb (Nat.eqb c) (sort_nat (nodup Nat.eq_dec original_labels))) with true;
    [reflexivity|].
  symmetry. apply existsb_exists. exists c. split; [|apply Nat.eqb_refl].
  eapply Permutation_in; [apply ScanFacts.sort_nat_perm|]. now apply nodup_In.
Qed.

Lemma members_of_spec original_labels c j :
  In j (members_of original_labels c) <->
  (j < length original_labels)%nat /\ nth j original_labels 0%nat = c.
Proof.
  unfold members_of. rewrite filter_In, in_seq, Nat.eqb_eq. lia.
Qed.

Lemma members_of_NoDup original_labels c : NoDup (members_of original_labels c).
Proof. apply NoDup_filter, seq_NoDup. Qed.

Lemma member_in_labels original_labels c :
  members_of original_labels c <> [] -> In c original_labels.
Proof.
  destruct (members_of original_labels c) as [|j ms] eqn:E; [congruence|]. intros _.
  assert (Hj : In j (members_of original_labels c)) by (rewrite E; now left).
  apply members_of_spec in Hj as [Hlt Hc]. subst c. now apply nth_In.
Qed.

Lemma opt_row_flat (g : nat -> nat -> Q) (a : nat) (l : list nat) :
  flat_map (fun x => match x with Some v => [v] | None => [] end)
    (map (fun b => if a =? b then None else Some (g a b)) l) =
  map (fun p => g (fst p) (snd p))
    (filter (fun p => negb (fst p =? snd p)) (map (fun b => (a, b)) l)).
Proof.
  induction l as [|b l IH]; simpl; [reflexivity|].
  destruct (a =? b); simpl; rewrite IH; reflexivity.
Qed.

Lemma block_flat (g : nat -> nat -> Q) (P1 P2 : list nat) :
  flat_map (fun r => flat_map (fun x => match x with Some v => [v] | None => [] end) r)
    (map (fun a => map (fun b => if a =? b then None else Some (g a b)) P2) P1) =
  map (fun p => g (fst p) (snd p))
    (filter (fun p => negb (fst p =? snd p)) (list_prod P1 P2)).
Proof.
  induction P1 as [|a P1 IH]; simpl; [reflexivity|].
  rewrite filter_app, map_app, IH, opt_row_flat. reflexivity.
Qed.

Lemma list_prod_map (h : nat -> nat) (P : list nat) :
  forall Q2, list_prod (map h P) (map h Q2) =
  map (fun p => (h (fst p), h (snd p))) (list_prod P Q2).
Proof.
  induction P as [|a P IH]; intro Q2; simpl; [reflexivity|].
  rewrite IH, map_app, !map_map. reflexivity.
Qed.

Lemma map_nth_seq_self (l : list nat) :
  map (fun i => nth i l 0%nat) (seq 0 (length l)) = l.
Proof.
  apply nth_ext with (d := 0%nat) (d' := 0%nat); rewrite length_map, length_seq; [reflexivity|].
  intros i Hi. rewrite GowerFacts.nth_map_lt with (d' := 0%nat) by (rewrite length_seq; lia).
  rewrite seq_nth by lia. reflexivity.
Qed.

Lemma member_block_values (stab : nat -> nat -> Q) (ms : list nat) :
  NoDup ms ->
  flat_map (fun r => flat_map (fun x => match x with Some v => [v] | None => [] end) r)
    (member_block stab ms) =
  map (fun p => stab (fst p) (snd p)) (distinct_pairs ms).
Proof.
  intro Hnd. unfold member_block, distinct_pairs.
  set (h := fun i => nth i ms 0%nat).
  rewrite (block_flat (fun a b => stab (h a) (h b))).
  rewrite <- (map_nth_seq_self ms) at 3 4. fold h.
  rewrite list_prod_map, filter_map_swap, map_map. simpl.
  f_equal. apply filter_ext_in. intros [a b] Hab. simpl.
  apply in_prod_iff in Hab as [Ha Hb]. apply in_seq in Ha, Hb.
  destruct (Nat.eqb_spec a b) as [->|Hne]; [now rewrite Nat.eqb_refl|].
  destruct (Nat.eqb_spec (h a) (h b)) as [E|]; [|reflexivity].
  exfalso. apply Hne. eapply (proj1 (NoDup_nth ms 0%nat)); [exact Hnd|lia|lia|exact E].
Qed.

Lemma mean_in_unit (l : list Q) :
  (forall x, In x l -> 0 <= x <= 1) -> 0 <= Silhouette.mean l <= 1.
Proof.
  intro H. unfold Silhouette.mean. destruct (GowerFacts.sumQ_bounds l H) as [H0 H1].
  destruct l as [|x l]; [split; vm_compute; discriminate|].
  assert (Hp : 0 < inject_Z (Z.of_nat (length (x :: l))))
    by (change 0 with (inject_Z 0); rewrite <- Zlt_Qlt; simpl; lia).
  split.
  - apply Qle_shift_div_l; [exact Hp|]. lra.
  - apply Qle_shift_div_r; [exact Hp|]. lra.
Qed.

Lemma nanmean_values (m : list (list (option Q))) :
  let vals := flat_map (fun r => flat_map (fun x => match x with
                                                   | Some v => [v] | None => [] end) r) m in
  match nanmean m with Some v => v | None => 0 end == Silhouette.mean vals.
Proof.
  intro vals. unfold nanmean. fold vals. destruct vals; reflexivity.
Qed.

Lemma cs_value_multi original_labels stab c :
  (1 < length (members_of original_labels c))%nat ->
  cs_value original_labels stab c ==
  Silhouette.mean (map (fun p => stab (fst p) (snd p))
                       (distinct_pairs (members_of original_labels c))).
Proof.
  intro H. unfold cs_value. cbv zeta.
  destruct (Nat.ltb_spec 1 (length (members_of original_labels c))); [|lia].
  rewrite nanmean_values, member_block_values by apply members_of_NoDup. reflexivity.
Qed.

End StabilityFacts.

(** * Claims about [bootstrap_validation] *)

Module BootClaims.
Import Gower Bootstrap BootFacts StabilityFacts.

(** Claim C4: after the accumulation loop of [bootstrap_validation] has run
    all its iterations, every entry of [coassoc] is at most the matching
    entry of [count_matrix] (both are counters, so non-negative), and
    wherever the count is positive the ratio [coassoc / count_matrix] lies
    in [0, 1]. *)
Theorem coassoc_ratio_in_unit
    (rng_state : Type) (random_interval : rng_state -> nat -> nat * rng_state)
    (kc : Z -> nat -> list (list Q) -> list nat) (ari : list nat -> list nat -> Q)
    (original_labels : list nat) (columns : list string) (fm : list row)
    (best_k n_iter : nat) (frac : Q) (st : rng_state) (s : acc rng_state) :
  bootstrap_loop rng_state random_interval kc ari original_labels columns fm best_k
    n_iter frac st = Ok s ->
  forall i j, (0 <= coassoc s i j <= count_matrix s i j)%nat /\
    ((0 < count_matrix s i j)%nat ->
     0 <= inject_Z (Z.of_nat (coassoc s i j)) / inject_Z (Z.of_nat (count_matrix s i j)) <= 1).
Proof.
  intros H i j. pose proof (bootstrap_loop_inv _ _ _ _ _ _ _ _ _ _ _ _ H i j) as Hle.
  split; [lia|]. intro Hpos. apply ratio_in_unit; assumption.
Qed.

Lemma coassoc_ratio_in_unit_witness :
  exists s, Bootstrap.bootstrap_loop Scenarios.tape Scenarios.tape_interval
      Scenarios.first_medoids_core Scenarios.ari_zero Scenarios.boot_labels0
      Scenarios.dup_columns Scenarios.boot_rows 2 1 (3 # 4) [3; 2; 1]%nat = Ok s /\
  forall i j, (0 <= coassoc s i j <= count_matrix s i j)%nat /\
    ((0 < count_matrix s i j)%nat ->
     0 <= inject_Z (Z.of_nat (coassoc s i j)) / inject_Z (Z.of_nat (count_matrix s i j)) <= 1).
Proof.
  destruct (Bootstrap.bootstrap_loop Scenarios.tape Scenarios.tape_interval
      Scenarios.first_medoids_core Scenarios.ari_zero Scenarios.boot_labels0
      Scenarios.dup_columns Scenarios.boot_rows 2 1 (3 # 4) [3; 2; 1]%nat) as [s|e] eqn:E;
    [|vm_compute in E; discriminate].
  exists s. split; [reflexivity|].
  exact (coassoc_ratio_in_unit _ _ _ _ _ _ _ _ _ _ _ _ E).
Defined.

(** Claim C10: in the returned [stability_matrix], a pair never sampled
    together (count 0) holds 0, and so does a pair sampled together but never
    clustered together (co-association 0): the two cases give the same
    entry. *)
Theorem unseen_pairs_get_zero
    (rng_state : Type) (random_interval : rng_state -> nat -> nat * rng_state)
    (kc : Z -> nat -> list (list Q) -> list nat) (ari : list nat -> list nat -> Q)
    (original_labels : list nat) (columns : list string) (fm : list row)
    (best_k n_iter : nat) (frac : Q) (st : rng_state) res st' :
  bootstrap_validation rng_state random_interval kc ari original_labels columns fm best_k
    n_iter frac st = Ok (res, st') ->
  exists s, bootstrap_loop rng_state random_interval kc ari original_labels columns fm
              best_k n_iter frac st = Ok s /\
  forall i j,
    (count_matrix s i j = 0%nat -> stability_matrix res i j = 0) /\
    (coassoc s i j = 0%nat -> stability_matrix res i j == 0).
Proof.
  unfold bootstrap_validation.
  destruct (bootstrap_loop rng_state random_interval kc ari original_labels columns fm
              best_k n_iter frac st) as [s|e]; simpl; [|discriminate].
  intro H. inversion H; subst res st'; clear H.
  exists s. split; [reflexivity|]. intros i j. simpl. unfold stability_of. split.
  - intros ->. reflexivity.
  - intros ->. destruct (0 <? count_matrix s i j)%nat; reflexivity.
Qed.

Lemma unseen_pairs_get_zero_witness :
  exists res st', Scenarios.run 2 1 [3; 2; 1]%nat = Ok (res, st') /\
  exists s, Bootstrap.bootstrap_loop Scenarios.tape Scenarios.tape_interval
      Scenarios.first_medoids_core Scenarios.ari_zero Scenarios.boot_labels0
      Scenarios.dup_columns Scenarios.boot_rows 2 1 (3 # 4) [3; 2; 1]%nat = Ok s /\
  forall i j,
    (count_matrix s i j = 0%nat -> stability_matrix res i j = 0) /\
    (coassoc s i j = 0%nat -> stability_matrix res i j == 0).
Proof.
  destruct (Scenarios.run 2 1 [3; 2; 1]%nat) as [[res st']|e] eqn:E;
    [|vm_compute in E; discriminate].
  exists res, st'. split; [reflexivity|].
  exact (unseen_pairs_get_zero _ _ _ _ _ _ _ _ _ _ _ _ _ E).
Defined.

(** Claim C9: an original cluster with exactly one member gets the
    stability score 1. *)
Theorem singleton_cluster_scores_one
    (rng_state : Type) (random_interval : rng_state -> nat -> nat * rng_state)
    (kc : Z -> nat -> list (list Q) -> list nat) (ari : list nat -> list nat -> Q)
    (original_labels : list nat) (columns : list string) (fm : list row)
    (best_k n_iter : nat) (frac : Q) (st : rng_state) res st' (c : nat) :
  bootstrap_validation rng_state random_interval kc ari original_labels columns fm best_k
    n_iter frac st = Ok (res, st') ->
  length (members_of original_labels c) = 1%nat ->
  Dict.get (cluster_stability res) c = Some 1.
Proof.
  unfold bootstrap_validation.
  destruct (bootstrap_loop rng_state random_interval kc ari original_labels columns fm
              best_k n_iter frac st) as [s|e]; simpl; [|discriminate].
  intros H Hm. inversion H; subst res st'; clear H. simpl.
  rewrite cluster_stability_get
    by (apply member_in_labels; intro E; rewrite E in Hm; discriminate).
  unfold cs_value. cbv zeta. rewrite Hm. reflexivity.
Qed.

Lemma singleton_cluster_scores_one_witness :
  exists res st', Scenarios.run 2 1 [3; 2; 1]%nat = Ok (res, st') /\
  length (members_of Scenarios.boot_labels0 2) = 1%nat /\
  Dict.get (cluster_stability res) 2 = Some 1.
Proof.
  destruct (Scenarios.run 2 1 [3; 2; 1]%nat) as [[res st']|e] eqn:E;
    [|vm_compute in E; discriminate].
  exists res, st'. split; [reflexivity|]. split; [reflexivity|].
  exact (singleton_cluster_scores_one _ _ _ _ _ _ _ _ _ _ _ _ _ 2%nat E eq_refl).
Defined.

(** Claim C8: for an original cluster with at least two members, the stored
    stability score is the mean of [stability_matrix] over the ordered pairs
    of distinct members, and lies in [0, 1]. *)
Theorem multi_cluster_score_is_pair_mean
    (rng_state : Type) (random_interval : rng_state -> nat -> nat * rng_state)
    (kc : Z -> nat -> list (list Q) -> list nat) (ari : list nat -> list nat -> Q)
    (original_labels : list nat) (columns : list string) (fm : list row)
    (best_k n_iter : nat) (frac : Q) (st : rng_state) res st' (c : nat) :
  bootstrap_validation rng_state random_interval kc ari original_labels columns fm best_k
    n_iter frac st = Ok (res, st') ->
  (2 <= length (members_of original_labels c))%nat ->
  exists v, Dict.get (cluster_stability res) c = Some v /\
  v == Silhouette.mean (map (fun p => stability_matrix res (fst p) (snd p))
                            (distinct_pairs (members_of original_labels c))) /\
  0 <= v <= 1.
Proof.
  unfold bootstrap_validation.
  destruct (bootstrap_loop rng_state random_interval kc ari original_labels columns fm
              best_k n_iter frac st) as [s|e] eqn:Hs; simpl; [|discriminate].
  intros H Hm. inversion H; subst res st'; clear H. simpl.
  rewrite cluster_stability_get
    by (apply member_in_labels; intro E; rewrite E in Hm; simpl in Hm; lia).
  eexists. split; [reflexivity|].
  assert (Hv := cs_value_multi original_labels (stability_of (coassoc s) (count_matrix s)) c
                  ltac:(lia)).
  split; [exact Hv|]. rewrite Hv. apply mean_in_unit.
  intros x Hx. apply in_map_iff in Hx as [[a b] [<- _]]. simpl.
  apply stability_of_in_unit. eapply bootstrap_loop_inv. exact Hs.
Qed.

Lemma multi_cluster_score_is_pair_mean_witness :
  exists res st', Scenarios.run 2 1 [3; 2; 1]%nat = Ok (res, st') /\
  (2 <= length (members_of Scenarios.boot_labels0 0))%nat /\
  exists v, Dict.get (cluster_stability res) 0 = Some v /\
  v == Silhouette.mean (map (fun p => stability_matrix res (fst p) (snd p))
                            (distinct_pairs (members_of Scenarios.boot_labels0 0))) /\
  0 <= v <= 1.
Proof.
  destruct (Scenarios.run 2 1 [3; 2; 1]%nat) as [[res st']|e] eqn:E;
    [|vm_compute in E; discriminate].
  exists res, st'. split; [reflexivity|]. split; [apply Nat.leb_le; vm_compute; reflexivity|].
  apply (multi_cluster_score_is_pair_mean _ _ _ _ _ _ _ _ _ _ _ _ _ _ E).
  apply Nat.leb_le. vm_compute. reflexivity.
Defined.

End BootClaims.

(** * Seeds, the global generator and failing trials *)

Module BootRunFacts.
Import Gower Bootstrap.

Lemma draw_ext (R : Type) (ri : R -> nat -> nat * R)
    (kc1 kc2 : Z -> nat -> list (list Q) -> list nat)
    labels columns fm best_k m i st :
  (forall k D, kc1 (Z.of_nat i) k D = kc2 (Z.of_nat i) k D) ->
  draw R ri kc1 labels columns fm best_k m i st = draw R ri kc2 labels columns fm best_k m i st.
Proof.
  intro H. unfold draw.
  destruct (NpRandom.choice _ _ _ _ _) as [[idx st']|e]; simpl; [|reflexivity].
  destruct (iloc _ _) as [fs|e]; simpl; [|reflexivity].
  destruct (gower_matrix_checked _ _) as [gd|e]; simpl; [|reflexivity].
  unfold KMedoids.fit_predict. rewrite H. reflexivity.
Qed.

Lemma trial_ext (R : Type) (ri : R -> nat -> nat * R)
    (kc1 kc2 : Z -> nat -> list (list Q) -> list nat) ari
    labels columns fm best_k m i s :
  (forall k D, kc1 (Z.of_nat i) k D = kc2 (Z.of_nat i) k D) ->
  trial R ri kc1 ari labels columns fm best_k m i s =
  trial R ri kc2 ari labels columns fm best_k m i s.
Proof.
  intro H. unfold trial.
  rewrite (draw_ext R ri kc1 kc2 labels columns fm best_k m i (rng s) H). reflexivity.
Qed.

Lemma iterate_ext (R : Type) (ri : R -> nat -> nat * R)
    (kc1 kc2 : Z -> nat -> list (list Q) -> list nat) ari
    labels columns fm best_k m r : forall i s,
  (forall t k D, (i <= t < i + r)%nat -> kc1 (Z.of_nat t) k D = kc2 (Z.of_nat t) k D) ->
  iterate R ri kc1 ari labels columns fm best_k m i r s =
  iterate R ri kc2 ari labels columns fm best_k m i r s.
Proof.
  induction r as [|r IH]; intros i s H; simpl; [reflexivity|].
  rewrite (trial_ext R ri kc1 kc2 ari labels columns fm best_k m i s)
    by (intros; apply H; lia).
  destruct (trial R ri kc2 ari labels columns fm best_k m i s) as [s1|e]; simpl;
    [|reflexivity].
  apply IH. intros; apply H; lia.
Qed.

Lemma iterate_add (R : Type) (ri : R -> nat -> nat * R)
    (kc : Z -> nat -> list (list Q) -> list nat) ari
    labels columns fm best_k m b a : forall i s,
  iterate R ri kc ari labels columns fm best_k m i (a + b) s =
  (s' <- iterate R ri kc ari labels columns fm best_k m i a s ;;
   iterate R ri kc ari labels columns fm best_k m (i + a) b s').
Proof.
  induction a as [|a IH]; intros i s; simpl.
  - rewrite Nat.add_0_r. reflexivity.
  - destruct (trial R ri kc ari labels columns fm best_k m i s) as [s1|e]; simpl;
      [|reflexivity].
    rewrite IH. replace (S i + a)%nat with (i + S a)%nat by lia. reflexivity.
Qed.

Lemma trial_lengths (R : Type) (ri : R -> nat -> nat * R)
    (kc : Z -> nat -> list (list Q) -> list nat) ari
    labels columns fm best_k m i s s' :
  trial R ri kc ari labels columns fm best_k m i s = Ok s' ->
  length (ari_acc s') = S (length (ari_acc s)) /\
  (length (sil_acc s') <= S (length (sil_acc s)))%nat.
Proof.
  intro Ht. pose proof (BootFacts.trial_cases R ri kc ari labels columns fm best_k m i s) as C.
  destruct (draw R ri kc labels columns fm best_k m i (rng s)) as [[[[idx gd] L] st']|e];
    [|congruence].
  cbv zeta in C.
  destruct (1 <? n_distinct L)%nat;
    [destruct (Silhouette.silhouette_score gd L); [|congruence]|];
    rewrite Ht in C; inversion C; subst; simpl; rewrite !length_app; simpl; lia.
Qed.

Lemma iterate_lengths (R : Type) (ri : R -> nat -> nat * R)
    (kc : Z -> nat -> list (list Q) -> list nat) ari
    labels columns fm best_k m r : forall i s s',
  iterate R ri kc ari labels columns fm best_k m i r s = Ok s' ->
  length (ari_acc s') = (length (ari_acc s) + r)%nat /\
  (length (sil_acc s') <= length (sil_acc s) + r)%nat.
Proof.
  induction r as [|r IH]; intros i s s' H; simpl in H.
  - inversion H; subst. lia.
  - destruct (trial R ri kc ari labels columns fm best_k m i s) as [s1|e] eqn:E; simpl in H;
      [|discriminate].
    destruct (trial_lengths R ri kc ari labels columns fm best_k m i s s1 E).
    destruct (IH (S i) s1 s' H). lia.
Qed.

End BootRunFacts.

Module BootRunClaims.
Import Gower Bootstrap BootRunFacts.

(** Claim C1 (counterexample): the same labels, features, [best_k],
    number of iterations and sample fraction, run from two initial states of
    numpy's global generator (which the source never seeds), give different
    per-cluster stability scores: 1 for cluster 0 in one run, 0 in the
    other. *)
Lemma stability_depends_on_generator_state :
  match Scenarios.run 2 1 [3; 2; 1]%nat, Scenarios.run 2 1 [1; 2; 1]%nat with
  | Ok (r1, _), Ok (r2, _) =>
      match Dict.get (cluster_stability r1) 0, Dict.get (cluster_stability r2) 0 with
      | Some v1, Some v2 => v1 == 1 /\ v2 == 0
      | _, _ => False
      end
  | _, _ => False
  end.
Proof. vm_compute. split; reflexivity. Qed.

(** Claim C1 (as amended): the scan passes [random_state=42] to every
    k-medoids run and the bootstrap passes [random_state=t] at iteration
    [t]; two k-medoids implementations that agree at these seeds give the
    same candidate table, and, from the same initial state of the global
    generator, the same bootstrap results and final generator state.  The
    index subsets are drawn from that generator, not from the seeds. *)
Theorem reproducible_given_generator_state
    (R : Type) (ri : R -> nat -> nat * R)
    (kc1 kc2 : Z -> nat -> list (list Q) -> list nat) (ari : list nat -> list nat -> Q)
    (columns : list string) (fm : list row) (ks : list nat)
    (labels : list nat) (best_k n_iter : nat) (frac : Q) (st : R) :
  (forall k D, kc1 42%Z k D = kc2 42%Z k D) ->
  (forall t k D, (t < n_iter)%nat -> kc1 (Z.of_nat t) k D = kc2 (Z.of_nat t) k D) ->
  Scan.compute_gower_and_cluster kc1 columns fm ks =
  Scan.compute_gower_and_cluster kc2 columns fm ks /\
  bootstrap_validation R ri kc1 ari labels columns fm best_k n_iter frac st =
  bootstrap_validation R ri kc2 ari labels columns fm best_k n_iter frac st.
Proof.
  intros H42 Ht. split.
  - unfold Scan.compute_gower_and_cluster.
    destruct (gower_matrix_checked _ _) as [D|e]; cbn [bind]; [|reflexivity].
    rewrite (ScanLoop.scan_loop_seed42 kc1 kc2 D ks H42). reflexivity.
  - unfold bootstrap_validation, bootstrap_loop.
    destruct (sample_size_of labels frac) as [m|e]; cbn [bind]; [|reflexivity].
    rewrite (iterate_ext R ri kc1 kc2 ari labels columns fm best_k _ n_iter 0)
      by (intros t k D Hr; apply Ht; lia).
    reflexivity.
Qed.

Lemma reproducible_given_generator_state_witness :
  (forall k D, Scenarios.first_medoids_core 42%Z k D = Scenarios.first_medoids_core 42%Z k D) /\
  (forall t k D, (t < 1)%nat ->
     Scenarios.first_medoids_core (Z.of_nat t) k D =
     Scenarios.first_medoids_core (Z.of_nat t) k D) /\
  Scan.compute_gower_and_cluster Scenarios.first_medoids_core Scenarios.dup_columns
    Scenarios.dup_rows [2%nat] =
  Scan.compute_gower_and_cluster Scenarios.first_medoids_core Scenarios.dup_columns
    Scenarios.dup_rows [2%nat] /\
  Scenarios.run 2 1 [3; 2; 1]%nat = Scenarios.run 2 1 [3; 2; 1]%nat.
Proof.
  assert (H1 : forall k D, Scenarios.first_medoids_core 42%Z k D =
                           Scenarios.first_medoids_core 42%Z k D) by reflexivity.
  assert (H2 : forall t k D, (t < 1)%nat ->
                 Scenarios.first_medoids_core (Z.of_nat t) k D =
                 Scenarios.first_medoids_core (Z.of_nat t) k D) by reflexivity.
  split; [exact H1|]. split; [exact H2|].
  exact (reproducible_given_generator_state _ Scenarios.tape_interval
           Scenarios.first_medoids_core Scenarios.first_medoids_core Scenarios.ari_zero
           Scenarios.dup_columns Scenarios.dup_rows [2%nat] Scenarios.boot_labels0 2 1 (3 # 4)
           [3; 2; 1]%nat H1 H2).
Defined.

(** Claim C5 (counterexample): with [best_k = 3] on samples of 3 of the 4
    records, the first trial goes through, while the second draws 3 records
    that the clusterer puts in 3 singleton clusters, so [silhouette_score]
    raises [ValueError]; the run with 2 iterations raises instead of
    skipping that trial, though the run with 1 iteration succeeds. *)
Lemma failing_trial_aborts_bootstrap :
  match Scenarios.run 3 1 [3; 2; 1; 1; 2; 1]%nat with Ok _ => True | Err _ => False end /\
  Scenarios.run 3 2 [3; 2; 1; 1; 2; 1]%nat = Err ValueError.
Proof. vm_compute. split; [exact I|reflexivity]. Qed.

(** Claim C5 (as amended): [bootstrap_validation] has no skip logic and
    no skip counter.  If trial [t] raises after trials [0 .. t-1]
    succeeded, the whole call raises the same error.  A trial whose
    sampling and clustering succeed with labels forming a single cluster
    does not raise: it records an ARI score and no silhouette score.  When
    the call returns, every one of the [n_iter] trials contributed an ARI
    score, and at most [n_iter] silhouette scores were recorded. *)
Theorem failed_trial_aborts_run
    (R : Type) (ri : R -> nat -> nat * R)
    (kc : Z -> nat -> list (list Q) -> list nat) (ari : list nat -> list nat -> Q)
    (labels : list nat) (columns : list string) (fm : list row)
    (best_k n_iter : nat) (frac : Q) (st : R) :
  (forall m t s e, sample_size_of labels frac = Ok m -> (t < n_iter)%nat ->
     iterate R ri kc ari labels columns fm best_k m 0 t
       (mk_acc st (fun _ _ => 0%nat) (fun _ _ => 0%nat) [] []) = Ok s ->
     trial R ri kc ari labels columns fm best_k m t s = Err e ->
     bootstrap_validation R ri kc ari labels columns fm best_k n_iter frac st = Err e) /\
  (forall m t s idx gd L st',
     draw R ri kc labels columns fm best_k m t (rng s) = Ok (idx, gd, L, st') ->
     (n_distinct L <= 1)%nat ->
     exists s', trial R ri kc ari labels columns fm best_k m t s = Ok s' /\
       ari_acc s' = ari_acc s ++ [ari (map (fun j => nth j labels 0%nat) idx) L] /\
       sil_acc s' = sil_acc s) /\
  (forall res st',
     bootstrap_validation R ri kc ari labels columns fm best_k n_iter frac st = Ok (res, st') ->
     length (ari_scores res) = n_iter /\ (length (sil_scores res) <= n_iter)%nat).
Proof.
  split; [|split].
  - intros m t s e Hm Ht Hpre Hfail. unfold bootstrap_validation, bootstrap_loop.
    rewrite Hm. cbn [bind].
    replace n_iter with (t + S (n_iter - S t))%nat by lia.
    rewrite iterate_add, Hpre. simpl. rewrite Hfail. reflexivity.
  - intros m t s idx gd L st' Hd HL.
    pose proof (BootFacts.trial_cases R ri kc ari labels columns fm best_k m t s) as C.
    rewrite Hd in C. cbv zeta in C.
    destruct (Nat.ltb_spec 1 (n_distinct L)); [lia|].
    eexists. split; [exact C|]. split; reflexivity.
  - intros res st' H. unfold bootstrap_validation in H.
    destruct (bootstrap_loop R ri kc ari labels columns fm best_k n_iter frac st)
      as [s|e] eqn:E; simpl in H; [|discriminate].
    inversion H; subst res st'; clear H. simpl.
    apply BootFacts.bootstrap_loop_ok in E as [m [_ E]].
    apply iterate_lengths in E. simpl in E. lia.
Qed.

Lemma failed_trial_aborts_run_witness :
  Scenarios.run 3 2 [3; 2; 1; 1; 2; 1]%nat = Err ValueError /\
  (exists s', trial Scenarios.tape Scenarios.tape_interval Scenarios.first_medoids_core
                Scenarios.ari_zero Scenarios.boot_labels0 Scenarios.dup_columns
                Scenarios.boot_rows 1 3%Z 0
                (mk_acc [3; 2; 1]%nat (fun _ _ => 0%nat) (fun _ _ => 0%nat) [] []) = Ok s' /\
              length (ari_acc s') = 1%nat /\ sil_acc s' = []) /\
  (forall res st', Scenarios.run 3 1 [3; 2; 1]%nat = Ok (res, st') ->
     length (ari_scores res) = 1%nat /\ (length (sil_scores res) <= 1)%nat).
Proof.
  split; [|split].
  - assert (Hm : sample_size_of Scenarios.boot_labels0 (3 # 4) = Ok 3%Z)
      by (vm_compute; reflexivity).
    assert (H : match iterate Scenarios.tape Scenarios.tape_interval
                        Scenarios.first_medoids_core Scenarios.ari_zero Scenarios.boot_labels0
                        Scenarios.dup_columns Scenarios.boot_rows 3 3%Z 0 1
                        (mk_acc [3; 2; 1; 1; 2; 1]%nat (fun _ _ => 0%nat) (fun _ _ => 0%nat)
                           [] []) with
                | Ok s => trial Scenarios.tape Scenarios.tape_interval
                            Scenarios.first_medoids_core Scenarios.ari_zero
                            Scenarios.boot_labels0 Scenarios.dup_columns Scenarios.boot_rows 3
                            3%Z 1 s
                          = Err ValueError
                | Err _ => False
                end) by (vm_compute; reflexivity).
    destruct (iterate Scenarios.tape Scenarios.tape_interval
                Scenarios.first_medoids_core Scenarios.ari_zero Scenarios.boot_labels0
                Scenarios.dup_columns Scenarios.boot_rows 3 3%Z 0 1
                (mk_acc [3; 2; 1; 1; 2; 1]%nat (fun _ _ => 0%nat) (fun _ _ => 0%nat) [] []))
      as [s1|e] eqn:E1; [|destruct H].
    refine (proj1 (failed_trial_aborts_run _ Scenarios.tape_interval
      Scenarios.first_medoids_core Scenarios.ari_zero Scenarios.boot_labels0
      Scenarios.dup_columns Scenarios.boot_rows 3 2 (3 # 4) [3; 2; 1; 1; 2; 1]%nat)
      3%Z 1%nat s1 ValueError Hm _ E1 H).
    apply Nat.ltb_lt. vm_compute. reflexivity.
  - destruct (draw Scenarios.tape Scenarios.tape_interval Scenarios.first_medoids_core
                Scenarios.boot_labels0 Scenarios.dup_columns Scenarios.boot_rows 1 3%Z 0
                [3; 2; 1]%nat) as [[[[idx gd] L] st']|e] eqn:Ed;
      [|vm_compute in Ed; discriminate].
    assert (HL : (n_distinct L <= 1)%nat).
    { vm_compute in Ed. injection Ed as _ _ <- _. apply Nat.leb_le. vm_compute. reflexivity. }
    destruct (proj1 (proj2 (failed_trial_aborts_run _ Scenarios.tape_interval
      Scenarios.first_medoids_core Scenarios.ari_zero Scenarios.boot_labels0
      Scenarios.dup_columns Scenarios.boot_rows 1 1 (3 # 4) [3; 2; 1]%nat))
      3%Z 0%nat (mk_acc [3; 2; 1]%nat (fun _ _ => 0%nat) (fun _ _ => 0%nat) [] [])
      idx gd L st' Ed HL) as [s' [Ht [Ha Hs]]].
    exists s'. split; [exact Ht|]. rewrite Ha, Hs. split; reflexivity.
  - exact (proj2 (proj2 (failed_trial_aborts_run _ Scenarios.tape_interval
      Scenarios.first_medoids_core Scenarios.ari_zero Scenarios.boot_labels0
      Scenarios.dup_columns Scenarios.boot_rows 3 1 (3 # 4) [3; 2; 1]%nat))).
Defined.

End BootRunClaims.

(** * Errors of [prepare_features] *)

Module FeatureFacts.
Import Features.

Lemma lookup_setitem df nm c nm' :
  lookup (setitem df nm c) nm' = if String.eqb nm' nm then Some c else lookup df nm'.
Proof.
  induction df as [|[k v] t IH]; simpl.
  - destruct (String.eqb nm' nm); reflexivity.
  - destruct (String.eqb_spec nm k) as [->|Hk]; simpl.
    + destruct (String.eqb nm' k); reflexivity.
    + destruct (String.eqb_spec nm' k) as [->|]; simpl.
      * destruct (String.eqb_spec k nm); [congruence|reflexivity].
      * exact IH.
Qed.

Lemma mapM_err {A B} (f : A -> result B) l x e :
  In x l -> f x = Err e -> exists e', Scan.mapM f l = Err e'.
Proof.
  intros Hin Hf. induction l as [|a l IH]; [destruct Hin|]. simpl.
  destruct Hin as [->|Hin].
  - rewrite Hf. simpl. eexists; reflexivity.
  - destruct (f a) as [y|e0]; simpl; [|eexists; reflexivity].
    destruct (IH Hin) as [e' He']. rewrite He'. simpl. eexists; reflexivity.
Qed.

Lemma mapM_ok {A B} (f : A -> result B) l :
  (forall x, In x l -> exists y, f x = Ok y) -> exists ys, Scan.mapM f l = Ok ys.
Proof.
  induction l as [|a l IH]; intro H; simpl; [eexists; reflexivity|].
  destruct (H a (or_introl eq_refl)) as [y Hy]. rewrite Hy. simpl.
  destruct IH as [ys Hys]; [intros; apply H; now right|]. rewrite Hys. simpl.
  eexists; reflexivity.
Qed.

Lemma mapM_In {A B} (f : A -> result B) l ys :
  Scan.mapM f l = Ok ys -> forall y, In y ys -> exists x, In x l /\ f x = Ok y.
Proof.
  revert ys. induction l as [|a l IH]; intros ys H y Hy; simpl in H.
  - inversion H; subst. destruct Hy.
  - destruct (f a) as [b|e] eqn:Ea; simpl in H; [|discriminate].
    destruct (Scan.mapM f l) as [zs|e] eqn:El; simpl in H; [|discriminate].
    inversion H; subst. destruct Hy as [<-|Hy].
    + exists a. split; [now left|exact Ea].
    + destruct (IH zs eq_refl y Hy) as [x [Hx Fx]]. exists x. split; [now right|exact Fx].
Qed.

Lemma select_err df names nm :
  In nm names -> lookup df nm = None -> exists e, select df names = Err e.
Proof.
  intros Hin Hl. unfold select. apply (mapM_err _ _ nm KeyError Hin).
  unfold getitem. rewrite Hl. reflexivity.
Qed.

Lemma select_ok df names :
  (forall nm, In nm names -> lookup df nm <> None) -> exists X, select df names = Ok X.
Proof.
  intro H. unfold select. apply mapM_ok. intros nm Hin. unfold getitem.
  destruct (lookup df nm) as [c|] eqn:E; [|exfalso; exact (H nm Hin E)].
  simpl. eexists; reflexivity.
Qed.

Lemma select_In df names X :
  select df names = Ok X ->
  forall p, In p X -> In (fst p) names /\ lookup df (fst p) = Some (snd p).
Proof.
  intros H p Hp. destruct (mapM_In _ _ _ H p Hp) as [nm [Hin Hf]].
  unfold getitem in Hf. destruct (lookup df nm) eqn:E; simpl in Hf; [|discriminate].
  inversion Hf; subst. simpl. auto.
Qed.

Lemma select_first df nm0 rest X :
  select df (nm0 :: rest) = Ok X ->
  exists c X', lookup df nm0 = Some c /\ X = (nm0, c) :: X'.
Proof.
  intro H. unfold select in H. simpl in H. unfold getitem in H.
  destruct (lookup df nm0) as [c|] eqn:E; simpl in H; [|discriminate].
  destruct (Scan.mapM _ rest) eqn:R; simpl in H; [|discriminate].
  inversion H; subst. eexists; eexists; split; reflexivity.
Qed.

Lemma fit_transform_num sqrt nm xs rest :
  xs <> [] -> (forall p, In p rest -> exists ys, snd p = NumCol ys) ->
  exists out, fit_transform sqrt ((nm, NumCol xs) :: rest) = Ok out.
Proof.
  intros Hxs Hr. unfold fit_transform. cbn [Scan.mapM bind to_float snd].
  destruct (mapM_ok (fun p => to_float (snd p)) rest) as [cols Hc].
  { intros p Hp. destruct (Hr p Hp) as [ys Hy]. rewrite Hy. eexists; reflexivity. }
  rewrite Hc. cbn [bind hd]. destruct xs; [congruence|]. simpl. eexists; reflexivity.
Qed.

Lemma fit_transform_empty sqrt X :
  (forall p, In p X -> col_len (snd p) = 0%nat) -> fit_transform sqrt X = Err ValueError.
Proof.
  intro H. unfold fit_transform.
  destruct (mapM_ok (fun p => to_float (snd p)) X) as [cols Hc].
  { intros p Hp. pose proof (H p Hp) as Hp0.
    destruct (snd p) as [xs|xs]; simpl in *; [eexists; reflexivity|].
    destruct xs; [|discriminate]. eexists; reflexivity. }
  rewrite Hc. cbn [bind].
  assert (Hl : length (hd [] cols) = 0%nat).
  { destruct cols as [|y cols]; [reflexivity|]. simpl.
    destruct (mapM_In _ _ _ Hc y (or_introl eq_refl)) as [p [Hp Hf]].
    pose proof (H p Hp) as Hp0.
    destruct (snd p) as [xs|xs]; simpl in *.
    - inversion Hf; subst. exact Hp0.
    - destruct xs; [|discriminate]. inversion Hf; subst. reflexivity. }
  rewrite Hl. reflexivity.
Qed.

Lemma dummies_all_present (v : string) (ys : list (option string)) :
  forallb (fun o => match o with Some _ => true | None => false end)
    (map (fun o => match o with
                   | Some x => if String.eqb x v then Some 1 else Some 0
                   | None => Some 0
                   end) ys) = true.
Proof.
  induction ys as [|o ys IH]; simpl; [reflexivity|].
  destruct o as [x|]; [destruct (String.eqb x v)|]; simpl; exact IH.
Qed.

Lemma dummies_astype cat :
  (forall p, In p cat -> exists xs, snd p = StrCol xs) ->
  exists out, astype_int (get_dummies cat) = Ok out.
Proof.
  intro H. unfold astype_int. apply mapM_ok. intros p Hp.
  unfold get_dummies in Hp. apply in_app_or in Hp as [Hp|Hp].
  - apply filter_In in Hp as [Hp Hno]. destruct (H p Hp) as [xs Hx].
    rewrite Hx in Hno. discriminate.
  - apply in_flat_map in Hp as [q [_ Hp]].
    destruct (snd q) as [ys|ys]; [destruct Hp|].
    unfold dummies in Hp. apply in_map_iff in Hp as [v [<- _]]. simpl.
    rewrite dummies_all_present. simpl. eexists; reflexivity.
Qed.

Lemma bin_not_weight nm :
  In nm BINARY_FEATURES -> String.eqb nm "PatientWeight" = false.
Proof. simpl. intros [<-|[<-|[<-|[]]]]; reflexivity. Qed.

Lemma cat_not_weight nm :
  In nm CATEGORICAL_FEATURES -> String.eqb nm "PatientWeight" = false.
Proof. simpl. intros [<-|[<-|[<-|[]]]]; reflexivity. Qed.

End FeatureFacts.

(** * Sampling without replacement and the shape of a trial *)

Module ChoiceFacts.
Import NpRandom.

(** The position [p] of [swap l i j] reads position [transp i j p] of [l]. *)
Definition transp (i j p : nat) : nat :=
  if p =? i then j else if p =? j then i else p.

(** [arr] holds the indices [0 .. n-1] without repetition. *)
Definition perm_of (n : nat) (arr : list nat) : Prop :=
  length arr = n /\ NoDup arr /\ forall x, In x arr -> (x < n)%nat.

Lemma swap_length l i j : length (swap l i j) = length l.
Proof. unfold swap. now rewrite length_map, length_seq. Qed.

Lemma swap_nth l i j p :
  (p < length l)%nat -> nth p (swap l i j) 0%nat = nth (transp i j p) l 0%nat.
Proof.
  intro Hp. unfold swap. rewrite GowerFacts.nth_map_seq by exact Hp. simpl.
  unfold transp. destruct (p =? i); [reflexivity|]. destruct (p =? j); reflexivity.
Qed.

Lemma transp_lt i j p L :
  (i < L)%nat -> (j < L)%nat -> (p < L)%nat -> (transp i j p < L)%nat.
Proof.
  intros. unfold transp. destruct (p =? i); [lia|]. destruct (p =? j); lia.
Qed.

Lemma transp_inj i j p q : transp i j p = transp i j q -> p = q.
Proof.
  unfold transp.
  destruct (Nat.eqb_spec p i), (Nat.eqb_spec p j), (Nat.eqb_spec q i), (Nat.eqb_spec q j);
    lia.
Qed.

Lemma swap_perm n l i j :
  (i < length l)%nat -> (j < length l)%nat -> perm_of n l -> perm_of n (swap l i j).
Proof.
  intros Hi Hj [Hl [Hnd Hin]].
  split; [rewrite swap_length; exact Hl|]. split.
  - apply (proj2 (NoDup_nth (swap l i j) 0%nat)). rewrite swap_length.
    intros p q Hp Hq E. rewrite !swap_nth in E by assumption.
    apply (transp_inj i j).
    eapply (proj1 (NoDup_nth l 0%nat)); [exact Hnd| | |exact E]; now apply transp_lt.
  - intros x Hx. apply (In_nth _ _ 0%nat) in Hx as [p [Hp <-]].
    rewrite swap_length in Hp. rewrite swap_nth by exact Hp.
    apply Hin, nth_In, transp_lt; assumption.
Qed.

Lemma perm_of_seq n : perm_of n (seq 0 n).
Proof.
  split; [apply length_seq|]. split; [apply seq_NoDup|].
  intros x Hx. apply in_seq in Hx. lia.
Qed.

Lemma firstn_perm_of n size perm :
  (size <= n)%nat -> perm_of n perm ->
  length (firstn size perm) = size /\ NoDup (firstn size perm) /\
  forall x, In x (firstn size perm) -> (x < n)%nat.
Proof.
  intros Hs [Hl [Hnd Hin]].
  pose proof (firstn_skipn size perm) as Happ.
  split; [rewrite length_firstn; lia|]. split.
  - rewrite <- Happ in Hnd. eapply NoDup_app_remove_r. exact Hnd.
  - intros x Hx. apply Hin. rewrite <- Happ. apply in_or_app. now left.
Qed.

Section Shuffle.
Variable R : Type.
Variable ri : R -> nat -> nat * R.
(** [random_interval(max)] returns a value in [0, max]. *)
Hypothesis Hri : forall st m, (fst (ri st m) <= m)%nat.

Lemma shuffle_perm n i : forall arr st,
  (i <= length arr - 1)%nat -> perm_of n arr -> perm_of n (fst (shuffle_from R ri i arr st)).
Proof.
  induction i as [|i IH]; intros arr st Hi Hp; simpl; [exact Hp|].
  pose proof (Hri st (S i)) as Hj. destruct (ri st (S i)) as [j st'] eqn:E. simpl in Hj.
  apply IH; [rewrite swap_length; lia|]. apply swap_perm; [lia|lia|exact Hp].
Qed.

Lemma choice_ok n size st :
  (0 <= size <= Z.of_nat n)%Z -> (size < 2 ^ 63)%Z ->
  exists idx st', choice R ri n size st = Ok (idx, st') /\
  length idx = Z.to_nat size /\ NoDup idx /\ forall x, In x idx -> (x < n)%nat.
Proof.
  intros Hs Hb. unfold choice.
  replace ((n =? 0) && negb (size =? 0)%Z) with false.
  2:{ destruct (Nat.eqb_spec n 0) as [->|]; [|reflexivity].
      simpl in Hs. replace size with 0%Z by lia. reflexivity. }
  replace ((size <? - 2 ^ 63)%Z || (2 ^ 63 <=? size)%Z) with false
    by (symmetry; apply orb_false_iff; split; [apply Z.ltb_ge|apply Z.leb_gt]; lia).
  replace ((Z.of_nat n <? size)%Z || (size <? 0)%Z) with false
    by (symmetry; apply orb_false_iff; split; apply Z.ltb_ge; lia).
  unfold permutation.
  pose proof (shuffle_perm n (n - 1) (seq 0 n) st) as Hp.
  destruct (shuffle_from R ri (n - 1) (seq 0 n) st) as [perm st'] eqn:E. simpl in Hp.
  exists (firstn (Z.to_nat size) perm), st'. split; [reflexivity|].
  apply firstn_perm_of; [lia|]. apply Hp; [rewrite length_seq; lia|apply perm_of_seq].
Qed.

Lemma choice_spec n size st idx st' :
  choice R ri n size st = Ok (idx, st') ->
  (0 <= size <= Z.of_nat n)%Z /\ length idx = Z.to_nat size /\ NoDup idx /\
  forall x, In x idx -> (x < n)%nat.
Proof.
  intro H.
  assert (Hs : (0 <= size <= Z.of_nat n)%Z /\ (size < 2 ^ 63)%Z).
  { unfold choice in H. destruct ((n =? 0) && negb (size =? 0)%Z); [discriminate|].
    destruct (Z.ltb_spec size (- 2 ^ 63)); destruct (Z.leb_spec (2 ^ 63) size);
      simpl in H; try discriminate.
    destruct (Z.ltb_spec (Z.of_nat n) size); destruct (Z.ltb_spec size 0);
      simpl in H; try discriminate.
    lia. }
  destruct Hs as [Hs Hb].
  destruct (choice_ok n size st Hs Hb) as [idx' [st'' [E P]]]. rewrite E in H.
  injection H as <- <-. split; [exact Hs|exact P].
Qed.

End Shuffle.

Lemma tape_interval_le st m : (fst (Scenarios.tape_interval st m) <= m)%nat.
Proof.
  destruct st as [|x t]; cbn [Scenarios.tape_interval fst]; [lia|].
  apply Nat.lt_succ_r, Nat.mod_upper_bound. lia.
Qed.

End ChoiceFacts.

(** * Sorting index vectors *)

Module SortFacts.

Lemma insert_sorted_sorted x l : Sorted le l -> Sorted le (insert_sorted x l).
Proof.
  induction l as [|y t IH]; intro H; simpl.
  - repeat constructor.
  - destruct (Nat.leb_spec x y).
    + constructor; [exact H|]. constructor. exact H0.
    + apply Sorted_inv in H as [Ht Hhd]. constructor; [now apply IH|].
      destruct t as [|z t]; simpl; [constructor; lia|].
      destruct (x <=? z); constructor; [lia|]. now inversion Hhd.
Qed.

Lemma sort_nat_sorted l : Sorted le (sort_nat l).
Proof. induction l as [|x t IH]; simpl; [constructor|now apply insert_sorted_sorted]. Qed.

Lemma sorted_nth_le l : Sorted le l -> forall i p, (i <= p)%nat -> (p < length l)%nat ->
  (nth i l 0 <= nth p l 0)%nat.
Proof.
  intro H. apply Sorted_StronglySorted in H; [|intros a b c; lia].
  induction H as [|a l Hs IH Hall]; intros i p Hip Hp; simpl in Hp; [lia|].
  destruct i as [|i], p as [|p]; simpl; try lia.
  - rewrite Forall_forall in Hall. apply Hall, nth_In. lia.
  - apply IH; lia.
Qed.

End SortFacts.

(** * Shape of one bootstrap draw *)

Module DrawFacts.
Import Gower Bootstrap ChoiceFacts.

Lemma gower_matrix_length mask data : length (gower_matrix mask data) = length data.
Proof. unfold gower_matrix, n_rows. now rewrite length_map, length_seq. Qed.

Lemma gower_checked_eq mask data D :
  gower_matrix_checked mask data = Ok D -> D = gower_matrix mask data.
Proof.
  unfold gower_matrix_checked. destruct (_ && _); [discriminate|].
  destruct mask; [discriminate|]. intro H. injection H as <-. reflexivity.
Qed.

Section Draw.
Variable R : Type.
Variable ri : R -> nat -> nat * R.
Variable kc : Z -> nat -> list (list Q) -> list nat.
Variable labels : list nat.
Variable columns : list string.
Variable fm : list row.
Variable best_k : nat.
Hypothesis Hri : forall st m, (fst (ri st m) <= m)%nat.

Local Abbreviation draw' := (draw R ri kc labels columns fm best_k).

Lemma draw_idx m i st idx gd L st' :
  draw' m i st = Ok (idx, gd, L, st') ->
  (0 <= m <= Z.of_nat (n labels))%Z /\ length idx = Z.to_nat m /\ NoDup idx /\
  Sorted le idx /\ (forall x, In x idx -> (x < n labels)%nat) /\
  gd = gower_matrix (cat_mask columns) (map (fun j => nth j fm []) idx) /\
  (1 <= best_k <= Z.to_nat m)%nat /\ L = kc (Z.of_nat i) best_k gd.
Proof.
  unfold draw. intro H.
  destruct (NpRandom.choice R ri (n labels) m st) as [[idx0 st0]|e] eqn:Ec;
    cbn [bind] in H; [|discriminate].
  destruct (choice_spec R ri Hri _ _ _ _ _ Ec) as [Hm [Hl [Hnd Hin]]].
  unfold iloc in H.
  destruct (forallb _ (sort_nat idx0)); cbn [bind] in H; [|discriminate].
  destruct (gower_matrix_checked _ _) as [gd0|e] eqn:Eg; cbn [bind] in H; [|discriminate].
  apply gower_checked_eq in Eg. subst gd0.
  rewrite ScanLoop.fit_predict_spec in H.
  destruct ((1 <=? best_k) && (best_k <=? length (gower_matrix (cat_mask columns)
             (map (fun j => nth j fm []) (sort_nat idx0))))) eqn:Ek;
    cbn [bind] in H; [|discriminate].
  apply andb_true_iff in Ek as [Ek1 Ek2]. apply Nat.leb_le in Ek1, Ek2.
  injection H as <- <- <- <-.
  rewrite gower_matrix_length, length_map in Ek2.
  pose proof (ScanFacts.sort_nat_perm idx0) as Hp.
  split; [exact Hm|]. split; [rewrite <- (Permutation_length Hp); exact Hl|].
  split; [eapply Permutation_NoDup; eassumption|].
  split; [apply SortFacts.sort_nat_sorted|].
  split; [intros x Hx; apply Hin; eapply Permutation_in; [symmetry; exact Hp|exact Hx]|].
  split; [reflexivity|]. split; [rewrite <- (Permutation_length Hp) in Ek2; lia|reflexivity].
Qed.

Lemma draw_result m i st :
  (0 <= m <= Z.of_nat (n labels))%Z -> (m < 2 ^ 63)%Z ->
  (n labels <= length fm)%nat -> columns <> [] ->
  exists idx st', draw' m i st =
    if (1 <=? best_k) && (best_k <=? Z.to_nat m) then
      Ok (idx, gower_matrix (cat_mask columns) (map (fun j => nth j fm []) idx),
          kc (Z.of_nat i) best_k
            (gower_matrix (cat_mask columns) (map (fun j => nth j fm []) idx)), st')
    else Err ValueError.
Proof.
  intros Hm Hb Hfm Hc. unfold draw.
  destruct (choice_ok R ri Hri (n labels) m st Hm Hb) as [idx0 [st0 [E [Hl [Hnd Hin]]]]].
  rewrite E. cbn [bind].
  pose proof (ScanFacts.sort_nat_perm idx0) as Hp.
  unfold iloc.
  rewrite (proj2 (forallb_forall _ _)).
  2:{ intros x Hx. apply Nat.ltb_lt.
      assert (x < n labels)%nat by (apply Hin; eapply Permutation_in; [symmetry; exact Hp|exact Hx]).
      lia. }
  cbn [bind]. exists (sort_nat idx0), st0.
  set (rows := map (fun j => nth j fm []) (sort_nat idx0)).
  assert (Hlen : length rows = Z.to_nat m)
    by (unfold rows; rewrite length_map, <- (Permutation_length Hp); exact Hl).
  assert (Hmask : cat_mask columns <> []) by (destruct columns; [congruence|discriminate]).
  unfold gower_matrix_checked.
  destruct (Nat.eqb_spec (length rows) 0) as [H0|H0].
  - rewrite andb_true_r.
    replace ((1 <=? best_k) && (best_k <=? Z.to_nat m)) with false
      by (rewrite <- Hlen, H0; destruct best_k; reflexivity).
    destruct (0 <? num_cols (cat_mask columns))%nat; [reflexivity|].
    destruct (cat_mask columns) as [|c0 cs]; [congruence|]. cbn [bind].
    rewrite ScanLoop.fit_predict_spec, gower_matrix_length, H0.
    destruct best_k; reflexivity.
  - rewrite andb_false_r.
    destruct (cat_mask columns) as [|c0 cs]; [congruence|]. cbn [bind].
    rewrite ScanLoop.fit_predict_spec, gower_matrix_length, Hlen.
    destruct ((1 <=? best_k) && (best_k <=? Z.to_nat m)); reflexivity.
Qed.

Lemma draw_large_k m i st :
  (n labels <= length fm)%nat -> columns <> [] -> (0 <= m < 2 ^ 63)%Z ->
  (m < Z.of_nat best_k)%Z -> draw' m i st = Err ValueError.
Proof.
  intros Hfm Hc [Hm0 Hb] Hk. destruct (Z.le_gt_cases m (Z.of_nat (n labels))) as [Hm|Hm].
  - destruct (draw_result m i st (conj Hm0 Hm) Hb Hfm Hc) as [idx [st' E]]. rewrite E.
    destruct (Nat.leb_spec best_k (Z.to_nat m)); [lia|]. rewrite andb_false_r. reflexivity.
  - unfold draw, NpRandom.choice.
    destruct ((n labels =? 0) && negb (m =? 0)%Z); [reflexivity|].
    destruct (Z.ltb_spec m (- 2 ^ 63)); [lia|]. destruct (Z.leb_spec (2 ^ 63) m); [lia|].
    destruct (Z.ltb_spec (Z.of_nat (n labels)) m); [reflexivity|lia].
Qed.

End Draw.

End DrawFacts.

(** * Invariants of the counters kept by the bootstrap *)

Module CounterFacts.
Import Gower Bootstrap.

Definition symmetric (m : counts) : Prop := forall i j, m i j = m j i.
Definition zero_diag (m : counts) : Prop := forall x, m x x = 0%nat.

Lemma pairs_spec L a b : In (a, b) (pairs L) -> (a < b < L)%nat.
Proof.
  unfold pairs. intro H. apply in_flat_map in H as [a' [Ha' H]].
  apply in_map_iff in H as [b' [E Hb']]. injection E as <- <-.
  apply in_seq in Ha', Hb'. lia.
Qed.

Lemma update_pres (P : counts * counts -> Prop) idx L cm :
  (forall cm a b, In (a, b) (pairs (length idx)) -> P cm -> P (pair_update idx L cm (a, b))) ->
  P cm -> P (update_coassoc idx L cm).
Proof.
  intro H. unfold update_coassoc. revert cm.
  induction (pairs (length idx)) as [|[a b] ps IH]; intros cm Hcm; simpl; [exact Hcm|].
  apply IH; [intros; apply H; [now right|assumption]|]. apply H; [now left|exact Hcm].
Qed.

Lemma incr2_sym m a b : symmetric m -> symmetric (incr (incr m a b) b a).
Proof.
  intros H x y. unfold incr. specialize (H x y).
  destruct (Nat.eqb_spec x b), (Nat.eqb_spec y a), (Nat.eqb_spec x a), (Nat.eqb_spec y b);
    simpl; lia.
Qed.

Lemma incr2_diag m a b : a <> b -> zero_diag m -> zero_diag (incr (incr m a b) b a).
Proof.
  intros Hab H x. unfold incr. specialize (H x).
  destruct (Nat.eqb_spec x b), (Nat.eqb_spec x a); simpl; lia.
Qed.

Section Run.
Variable R : Type.
Variable ri : R -> nat -> nat * R.
Variable kc : Z -> nat -> list (list Q) -> list nat.
Variable ari : list nat -> list nat -> Q.
Variable labels : list nat.
Variable columns : list string.
Variable fm : list row.
Variable best_k : nat.

Local Abbreviation draw' := (draw R ri kc labels columns fm best_k).
Local Abbreviation iterate' := (iterate R ri kc ari labels columns fm best_k).

Lemma iterate_pres (P : counts -> counts -> Prop) m :
  (forall i s idx gd L st', draw' m i (rng s) = Ok (idx, gd, L, st') ->
     P (coassoc s) (count_matrix s) ->
     P (fst (update_coassoc idx L (coassoc s, count_matrix s)))
       (snd (update_coassoc idx L (coassoc s, count_matrix s)))) ->
  forall r i s s', iterate' m i r s = Ok s' ->
  P (coassoc s) (count_matrix s) -> P (coassoc s') (count_matrix s').
Proof.
  intros Hstep r. induction r as [|r IH]; intros i s s' H Hs; simpl in H.
  - injection H as <-. exact Hs.
  - destruct (trial R ri kc ari labels columns fm best_k m i s) as [s1|e] eqn:Et;
      cbn [bind] in H; [|discriminate].
    apply (IH (S i) s1 s' H).
    pose proof (BootFacts.trial_cases R ri kc ari labels columns fm best_k m i s) as C.
    destruct (draw' m i (rng s)) as [[[[idx gd] L] st']|e] eqn:Ed; [|congruence].
    cbv zeta in C.
    destruct (1 <? n_distinct L)%nat;
      [destruct (Silhouette.silhouette_score gd L); [|congruence]|];
      rewrite Et in C; injection C as ->; simpl; exact (Hstep i s idx gd L st' Ed Hs).
Qed.

Lemma loop_pres (P : counts -> counts -> Prop) n_iter frac st s :
  (forall m i s idx gd L st', draw' m i (rng s) = Ok (idx, gd, L, st') ->
     P (coassoc s) (count_matrix s) ->
     P (fst (update_coassoc idx L (coassoc s, count_matrix s)))
       (snd (update_coassoc idx L (coassoc s, count_matrix s)))) ->
  P (fun _ _ => 0%nat) (fun _ _ => 0%nat) ->
  bootstrap_loop R ri kc ari labels columns fm best_k n_iter frac st = Ok s ->
  P (coassoc s) (count_matrix s).
Proof.
  intros Hstep H0 H. apply BootFacts.bootstrap_loop_ok in H as [m [_ H]].
  exact (iterate_pres P m (Hstep m) _ _ _ _ H H0).
Qed.

End Run.
End CounterFacts.

(** * Further properties of [bootstrap_validation] *)

Module BootExtras.
Import Gower Bootstrap ChoiceFacts DrawFacts CounterFacts.

(** Property X1: Sampling step of one bootstrap trial, for a feature
    matrix without missing values, with at least one column and at least
    one row per labelled encounter, and a sample size [m] between 0 and [n]
    ([n] below [2^63], as for any Python sequence): [np.random.choice],
    [np.sort] and [iloc] never raise; the only error is [ValueError], raised
    by [gower_matrix] or [KMedoids.fit] exactly when [best_k] is 0 or
    exceeds [m].  On success the indices are sorted, distinct and below
    [n], there are [m] of them, the distance matrix is the Gower matrix of
    the sampled rows, and the labels are those of the k-medoids run seeded
    with the iteration number. *)
Theorem draw_outcome (R : Type) (ri : R -> nat -> nat * R)
    (Hri : forall st m, (fst (ri st m) <= m)%nat)
    (kc : Z -> nat -> list (list Q) -> list nat) (labels : list nat)
    (columns : list string) (fm : list row) (best_k : nat) (m : Z) (i : nat) (st : R) :
  (n labels <= length fm)%nat -> columns <> [] -> (Z.of_nat (n labels) < 2 ^ 63)%Z ->
  (0 <= m <= Z.of_nat (n labels))%Z ->
  match draw R ri kc labels columns fm best_k m i st with
  | Err e => e = ValueError /\ (best_k = 0%nat \/ (m < Z.of_nat best_k)%Z)
  | Ok (idx, gd, L, st') =>
      (1 <= best_k)%nat /\ (Z.of_nat best_k <= m)%Z /\ length idx = Z.to_nat m /\
      NoDup idx /\ Sorted le idx /\
      (forall x, In x idx -> (x < n labels)%nat) /\
      gd = gower_matrix (cat_mask columns) (map (fun j => nth j fm []) idx) /\
      L = kc (Z.of_nat i) best_k gd
  end.
Proof.
  intros Hfm Hc Hn Hm.
  destruct (draw_result R ri kc labels columns fm best_k Hri m i st Hm ltac:(lia) Hfm Hc)
    as [idx [st' E]].
  destruct ((1 <=? best_k) && (best_k <=? Z.to_nat m)) eqn:Ek.
  - apply andb_true_iff in Ek as [Ek1 Ek2]. apply Nat.leb_le in Ek1, Ek2.
    rewrite E.
    destruct (draw_idx R ri kc labels columns fm best_k Hri _ _ _ _ _ _ _ E)
      as (_ & Hl & Hnd & Hs & Hin & Hgd & Hk & HL).
    split; [exact Ek1|]. split; [lia|]. repeat split; assumption.
  - rewrite E. split; [reflexivity|].
    destruct (Nat.leb_spec 1 best_k); [|left; lia].
    destruct (Nat.leb_spec best_k (Z.to_nat m)); [discriminate|right; lia].
Qed.

Lemma draw_outcome_witness :
  match draw Scenarios.tape Scenarios.tape_interval Scenarios.first_medoids_core
          Scenarios.boot_labels0 Scenarios.dup_columns Scenarios.boot_rows 2 3%Z 0
          [3; 2; 1]%nat with
  | Err e => e = ValueError /\ (2%nat = 0%nat \/ (3 < Z.of_nat 2)%Z)
  | Ok (idx, gd, L, st') =>
      (1 <= 2)%nat /\ (Z.of_nat 2 <= 3)%Z /\ length idx = Z.to_nat 3 /\
      NoDup idx /\ Sorted le idx /\
      (forall x, In x idx -> (x < n Scenarios.boot_labels0)%nat) /\
      gd = gower_matrix (cat_mask Scenarios.dup_columns)
             (map (fun j => nth j Scenarios.boot_rows []) idx) /\
      L = Scenarios.first_medoids_core (Z.of_nat 0) 2 gd
  end.
Proof.
  apply (draw_outcome Scenarios.tape Scenarios.tape_interval tape_interval_le).
  - apply Nat.leb_le. vm_compute. reflexivity.
  - discriminate.
  - vm_compute. reflexivity.
  - split; vm_compute; discriminate.
Defined.

(** Property X2: For a feature matrix without missing values, with at least
    one column and a row for every labelled encounter, a run of at least
    one iteration raises [ValueError] whenever [int(n * sample_frac)] is a
    non-negative integer below [2^63] and smaller than [best_k], whatever
    the sample fraction: the first trial fails in [np.random.choice]
    (sample larger than [n]), in [gower_matrix] (empty sample) or in
    [KMedoids.fit] ([k] larger than the sample). *)
Theorem validation_rejects_large_k (R : Type) (ri : R -> nat -> nat * R)
    (Hri : forall st m, (fst (ri st m) <= m)%nat)
    (kc : Z -> nat -> list (list Q) -> list nat) (ari : list nat -> list nat -> Q)
    (labels : list nat) (columns : list string) (fm : list row)
    (best_k n_iter : nat) (frac : Q) (st : R) (m : Z) :
  (n labels <= length fm)%nat -> columns <> [] ->
  sample_size_of labels frac = Ok m -> (0 <= m < 2 ^ 63)%Z -> (m < Z.of_nat best_k)%Z ->
  (1 <= n_iter)%nat ->
  bootstrap_validation R ri kc ari labels columns fm best_k n_iter frac st = Err ValueError.
Proof.
  intros Hfm Hc Hs Hm Hk Hn. destruct n_iter as [|r]; [lia|].
  unfold bootstrap_validation, bootstrap_loop. rewrite Hs. cbn [bind iterate].
  unfold trial at 1. cbn [rng].
  rewrite (draw_large_k R ri kc labels columns fm best_k Hri m 0 st Hfm Hc Hm Hk).
  reflexivity.
Qed.

Lemma validation_rejects_large_k_witness :
  bootstrap_validation Scenarios.tape Scenarios.tape_interval Scenarios.first_medoids_core
    Scenarios.ari_zero Scenarios.boot_labels0 Scenarios.dup_columns Scenarios.boot_rows
    4 2 (3 # 4) [3; 2; 1]%nat = Err ValueError.
Proof.
  apply (validation_rejects_large_k Scenarios.tape Scenarios.tape_interval tape_interval_le
           _ _ _ _ _ _ _ _ _ 3%Z).
  - apply Nat.leb_le. vm_compute. reflexivity.
  - discriminate.
  - vm_compute. reflexivity.
  - split; vm_compute; [discriminate|reflexivity].
  - vm_compute. reflexivity.
  - apply Nat.leb_le. vm_compute. reflexivity.
Defined.

(** Property X3: The returned [stability_matrix] is symmetric: every pair update
    increments [count_matrix] and [coassoc] at [(i_a, i_b)] and at
    [(i_b, i_a)] together. *)
Theorem stability_matrix_symmetric
    (R : Type) (ri : R -> nat -> nat * R)
    (kc : Z -> nat -> list (list Q) -> list nat) (ari : list nat -> list nat -> Q)
    (labels : list nat) (columns : list string) (fm : list row)
    (best_k n_iter : nat) (frac : Q) (st : R) res st' :
  bootstrap_validation R ri kc ari labels columns fm best_k n_iter frac st = Ok (res, st') ->
  forall i j, stability_matrix res i j = stability_matrix res j i.
Proof.
  unfold bootstrap_validation. intro H.
  destruct (bootstrap_loop R ri kc ari labels columns fm best_k n_iter frac st)
    as [s|e] eqn:Hs; cbn [bind] in H; [|discriminate].
  injection H as <- _. cbn [stability_matrix].
  assert (Hsym : symmetric (coassoc s) /\ symmetric (count_matrix s)).
  { apply (loop_pres R ri kc ari labels columns fm best_k
             (fun co cnt => symmetric co /\ symmetric cnt) n_iter frac st s);
      [|split; intros i j; reflexivity|exact Hs].
    intros m i s0 idx gd L st0 _ H0.
    apply (update_pres (fun cm => symmetric (fst cm) /\ symmetric (snd cm))); [|exact H0].
    intros [co cnt] a b _ [Hc Hn]. unfold pair_update. simpl.
    split; [destruct (_ =? _)%nat; [apply incr2_sym|]|apply incr2_sym]; assumption. }
  intros i j. unfold stability_of. rewrite (proj1 Hsym i j), (proj2 Hsym i j). reflexivity.
Qed.

Lemma stability_matrix_symmetric_witness :
  exists res st', Scenarios.run 2 1 [3; 2; 1]%nat = Ok (res, st') /\
  forall i j, stability_matrix res i j = stability_matrix res j i.
Proof.
  destruct (Scenarios.run 2 1 [3; 2; 1]%nat) as [[res st']|e] eqn:E;
    [|vm_compute in E; discriminate].
  exists res, st'. split; [reflexivity|].
  exact (stability_matrix_symmetric _ _ _ _ _ _ _ _ _ _ _ _ _ E).
Defined.

(** Property X4: The diagonal of the returned [stability_matrix] is 0: the sampled
    indices are distinct, so no pair update touches [count_matrix[i, i]],
    which stays 0, and [np.where(count_matrix > 0, ..., 0)] gives 0 there. *)
Theorem stability_matrix_zero_diagonal
    (R : Type) (ri : R -> nat -> nat * R)
    (Hri : forall st m, (fst (ri st m) <= m)%nat)
    (kc : Z -> nat -> list (list Q) -> list nat) (ari : list nat -> list nat -> Q)
    (labels : list nat) (columns : list string) (fm : list row)
    (best_k n_iter : nat) (frac : Q) (st : R) res st' :
  bootstrap_validation R ri kc ari labels columns fm best_k n_iter frac st = Ok (res, st') ->
  forall i, stability_matrix res i i = 0.
Proof.
  unfold bootstrap_validation. intro H.
  destruct (bootstrap_loop R ri kc ari labels columns fm best_k n_iter frac st)
    as [s|e] eqn:Hs; cbn [bind] in H; [|discriminate].
  injection H as <- _. cbn [stability_matrix].
  assert (Hz : zero_diag (count_matrix s)).
  { apply (loop_pres R ri kc ari labels columns fm best_k
             (fun co cnt => zero_diag cnt) n_iter frac st s);
      [|intro x; reflexivity|exact Hs].
    intros m i s0 idx gd L st0 Hd H0.
    destruct (draw_idx R ri kc labels columns fm best_k Hri _ _ _ _ _ _ _ Hd)
      as (_ & _ & Hnd & _).
    apply (update_pres (fun cm => zero_diag (snd cm))); [|exact H0].
    intros [co cnt] a b Hab Hc. apply pairs_spec in Hab.
    unfold pair_update. simpl. apply incr2_diag; [|exact Hc].
    intro E. apply (proj1 (NoDup_nth idx 0%nat) Hnd a b) in E; lia. }
  intro i. unfold stability_of. rewrite Hz. reflexivity.
Qed.

Lemma stability_matrix_zero_diagonal_witness :
  exists res st', Scenarios.run 2 1 [3; 2; 1]%nat = Ok (res, st') /\
  forall i, stability_matrix res i i = 0.
Proof.
  destruct (Scenarios.run 2 1 [3; 2; 1]%nat) as [[res st']|e] eqn:E;
    [|vm_compute in E; discriminate].
  exists res, st'. split; [reflexivity|].
  exact (stability_matrix_zero_diagonal _ _ tape_interval_le _ _ _ _ _ _ _ _ _ _ _ E).
Defined.

End BootExtras.

(** * Keys of the dictionaries built by the code *)

Module DictFacts.

Lemma keys_set_new {A} (d : list (nat * A)) k v :
  ~ In k (Dict.keys d) -> Dict.keys (Dict.set d k v) = Dict.keys d ++ [k].
Proof.
  induction d as [|[k' v'] t IH]; simpl; intro H; [reflexivity|].
  destruct (Nat.eqb_spec k k') as [->|]; [exfalso; apply H; now left|].
  simpl. f_equal. apply IH. intro; apply H; now right.
Qed.

Lemma keys_set_In {A} (d : list (nat * A)) k v x :
  In x (Dict.keys (Dict.set d k v)) <-> In x (Dict.keys d) \/ x = k.
Proof.
  induction d as [|[k' v'] t IH]; simpl.
  { split; [intros [<-|[]]; now right|intros [[]| ->]; now left]. }
  destruct (Nat.eqb_spec k k') as [->|]; simpl.
  - split; [intros [<-|H]; auto|intros [[<-|H]| ->]; auto].
  - rewrite IH. tauto.
Qed.

Lemma keys_fold_set {A} (f : nat -> A) (l : list nat) : forall d,
  NoDup l -> (forall x, In x l -> ~ In x (Dict.keys d)) ->
  Dict.keys (fold_left (fun d c => Dict.set d c (f c)) l d) = Dict.keys d ++ l.
Proof.
  induction l as [|c l IH]; intros d Hnd Hout; simpl; [now rewrite app_nil_r|].
  apply NoDup_cons_iff in Hnd as [Hc Hnd].
  rewrite IH; [|exact Hnd|].
  - rewrite keys_set_new by (apply Hout; now left). now rewrite <- app_assoc.
  - intros x Hx. rewrite keys_set_In. intros [Hin| ->]; [|contradiction].
    exact (Hout x (or_intror Hx) Hin).
Qed.

Lemma get_of_key {A} (d : list (nat * A)) k :
  In k (Dict.keys d) -> exists v, Dict.get d k = Some v.
Proof.
  induction d as [|[k' v'] t IH]; simpl; [intros []|].
  destruct (Nat.eqb_spec k k') as [->|Hne]; [eexists; reflexivity|].
  intros [E|H]; [congruence|]. now apply IH.
Qed.

End DictFacts.

(** * First maximum of [np.argmax] *)

Module ArgmaxFacts.
Import Scan.

Lemma argmax_from_first t : forall pre best bv,
  (best < length pre)%nat -> nth best pre 0 = bv ->
  (forall p, (p < length pre)%nat -> nth p pre 0 <= bv) ->
  (forall p, (p < best)%nat -> nth p pre 0 < bv) ->
  let r := argmax_from t (length pre - 1) best bv in
  forall p, (p < r)%nat -> nth p (pre ++ t) 0 < nth r (pre ++ t) 0.
Proof.
  induction t as [|x t IH]; intros pre best bv Hb Hbv Hall Hlt r.
  - unfold r; simpl. rewrite app_nil_r, Hbv. exact Hlt.
  - unfold r; simpl.
    replace (pre ++ x :: t) with ((pre ++ [x]) ++ t) by now rewrite <- app_assoc.
    assert (Hlen : length (pre ++ [x]) = S (length pre)) by (rewrite length_app; simpl; lia).
    replace (S (length pre - 1)) with (length (pre ++ [x]) - 1)%nat by lia.
    destruct (Qle_bool x bv) eqn:E.
    + apply Qle_bool_iff in E. apply IH.
      * lia.
      * rewrite app_nth1 by lia. exact Hbv.
      * intros p Hp. destruct (Nat.ltb_spec p (length pre)).
        -- rewrite app_nth1 by lia. now apply Hall.
        -- rewrite app_nth2 by lia. replace (p - length pre)%nat with 0%nat by lia.
           exact E.
      * intros p Hp. rewrite app_nth1 by lia. now apply Hlt.
    + assert (Hx : bv < x) by (apply Qnot_le_lt; intro C; apply Qle_bool_iff in C; congruence).
      apply IH.
      * lia.
      * rewrite app_nth2 by lia. replace (length (pre ++ [x]) - 1 - length pre)%nat
          with 0%nat by lia. reflexivity.
      * intros p Hp. destruct (Nat.ltb_spec p (length pre)).
        -- rewrite app_nth1 by lia. apply Qle_trans with bv; [now apply Hall|].
           now apply Qlt_le_weak.
        -- rewrite app_nth2 by lia. replace (p - length pre)%nat with 0%nat by lia.
           apply Qle_refl.
      * intros p Hp. rewrite app_nth1 by lia. apply Qle_lt_trans with bv; [|exact Hx].
        apply Hall. lia.
Qed.

Lemma argmax_first l i :
  argmax l = Ok i -> forall p, (p < i)%nat -> nth p l 0 < nth i l 0.
Proof.
  destruct l as [|x t]; simpl; [discriminate|]. intro H; injection H as <-.
  pose proof (argmax_from_first t [x] 0 x) as S. simpl in S.
  apply S; [lia|reflexivity| |intros; lia]. intros [|p] Hp; [apply Qle_refl|simpl in Hp; lia].
Qed.

(** [plot_silhouette_scores] returns a key of the table, at the first
    position of the maximum in the sorted keys. *)
Lemma plot_spec results best_k :
  plot_silhouette_scores results = Ok best_k ->
  exists ks sils i cb,
    ks = sort_nat (Dict.keys results) /\ argmax sils = Ok i /\ best_k = nth i ks 0%nat /\
    length sils = length ks /\ (i < length ks)%nat /\
    Dict.get results best_k = Some cb /\ nth i sils 0 = silhouette cb /\
    forall p c, (p < length ks)%nat -> Dict.get results (nth p ks 0%nat) = Some c ->
      nth p sils 0 = silhouette c.
Proof.
  unfold plot_silhouette_scores.
  set (ks := sort_nat (Dict.keys results)).
  set (f := fun k => match Dict.get results k with
                     | Some c => Ok (silhouette c) | None => Err KeyError end).
  destruct (mapM f ks) as [sils|] eqn:Hm; cbn [bind]; [|discriminate].
  destruct (argmax sils) as [i|] eqn:Ha; cbn [bind]; [|discriminate].
  intro H; injection H as <-.
  destruct (ScanFacts.mapM_nth f ks sils 0%nat 0 Hm) as [Hlen Hnth].
  destruct (ScanFacts.argmax_spec sils i Ha) as [Hi _].
  pose proof (Hnth i ltac:(lia)) as Fi. unfold f in Fi.
  destruct (Dict.get results (nth i ks 0%nat)) as [cb|] eqn:Gb; [|discriminate].
  injection Fi as Ei.
  exists ks, sils, i, cb. repeat split; try assumption; try lia; try congruence.
  intros p c Hp Gp. pose proof (Hnth p Hp) as Fp. unfold f in Fp. rewrite Gp in Fp.
  injection Fp as Ep. congruence.
Qed.

End ArgmaxFacts.

(** * The step-3 pipeline after the feature matrix *)

Module PipelineFacts.
Import Gower Scan Features Apply.

Section Loop.
Variable kc : Z -> nat -> list (list Q) -> list nat.
Variable D : list (list Q).

Lemma scan_loop_entries ks : forall acc res,
  scan_loop kc D ks acc = Ok res ->
  forall k c, Dict.get res k = Some c ->
  Dict.get acc k = Some c \/ (In k ks /\ labels c = kc 42%Z k D).
Proof.
  induction ks as [|k ks IH]; intros acc res H k' c Hg; simpl in H.
  - injection H as <-. now left.
  - rewrite ScanLoop.fit_predict_spec in H.
    destruct ((1 <=? k) && (k <=? length D))%nat; cbn [bind] in H; [|discriminate].
    destruct (Silhouette.silhouette_score D (kc 42%Z k D)) as [sil|e];
      cbn [bind] in H; [|discriminate].
    destruct (IH _ _ H k' c Hg) as [Ha|[Hin Hl]]; [|right; split; [now right|exact Hl]].
    rewrite ScanLoop.get_set in Ha. destruct (Nat.eqb_spec k' k) as [->|]; [|now left].
    injection Ha as <-. right. split; [now left|reflexivity].
Qed.

Lemma scan_loop_keys ks : forall acc res,
  scan_loop kc D ks acc = Ok res ->
  forall k, In k ks \/ In k (Dict.keys acc) -> In k (Dict.keys res).
Proof.
  induction ks as [|k ks IH]; intros acc res H k' Hk; simpl in H.
  - injection H as <-. destruct Hk as [[]|Hk]; exact Hk.
  - rewrite ScanLoop.fit_predict_spec in H.
    destruct ((1 <=? k) && (k <=? length D))%nat; cbn [bind] in H; [|discriminate].
    destruct (Silhouette.silhouette_score D (kc 42%Z k D)) as [sil|e];
      cbn [bind] in H; [|discriminate].
    apply (IH _ _ H). rewrite DictFacts.keys_set_In.
    destruct Hk as [[->|Hk]|Hk]; auto.
Qed.

End Loop.

End PipelineFacts.

(** * Bounds of the silhouette score *)

Module SilhouetteFacts.
Import Gower Silhouette.

Lemma div_nonneg x y : 0 <= x -> 0 <= y -> 0 <= x / y.
Proof.
  intros Hx Hy. unfold Qdiv. apply Qmult_le_0_compat; [exact Hx|].
  apply Qinv_le_0_compat. exact Hy.
Qed.

Lemma nat_nonneg (k : nat) : 0 <= inject_Z (Z.of_nat k).
Proof. change 0 with (inject_Z 0). rewrite <- Zle_Qle. lia. Qed.

Lemma sumQ_nonneg l : (forall x, In x l -> 0 <= x) -> 0 <= sumQ l.
Proof.
  induction l as [|a l IH]; intro H; unfold sumQ in *; simpl; [apply Qle_refl|].
  pose proof (H a (or_introl eq_refl)). assert (0 <= fold_right Qplus 0 l)
    by (apply IH; intros; apply H; now right). lra.
Qed.

Lemma mean_nonneg l : (forall x, In x l -> 0 <= x) -> 0 <= mean l.
Proof. intro H. unfold mean. apply div_nonneg; [now apply sumQ_nonneg|apply nat_nonneg]. Qed.

Lemma fold_min_nonneg l : forall a,
  0 <= a -> (forall x, In x l -> 0 <= x) -> 0 <= fold_left Qmin l a.
Proof.
  induction l as [|x l IH]; intros a Ha H; simpl; [exact Ha|].
  apply IH; [|intros; apply H; now right].
  apply Q.min_glb; [exact Ha|apply H; now left].
Qed.

Lemma sumQ_sym_bounds l :
  (forall x, In x l -> -1 <= x <= 1) ->
  - inject_Z (Z.of_nat (length l)) <= sumQ l <= inject_Z (Z.of_nat (length l)).
Proof.
  induction l as [|a l IH]; intro H; unfold sumQ in *; simpl.
  - split; vm_compute; discriminate.
  - rewrite Zpos_P_of_succ_nat, <- Z.add_1_r, inject_Z_plus.
    destruct (H a (or_introl eq_refl)).
    destruct IH as [IH1 IH2]; [intros x Hx; apply H; now right|].
    unfold inject_Z at 2 4. split; lra.
Qed.

Lemma mean_sym_bounds l :
  (forall x, In x l -> -1 <= x <= 1) -> -1 <= mean l <= 1.
Proof.
  intro H. unfold mean. destruct (sumQ_sym_bounds l H) as [H0 H1].
  destruct l as [|x l]; [split; vm_compute; discriminate|].
  assert (Hp : 0 < inject_Z (Z.of_nat (length (x :: l))))
    by (change 0 with (inject_Z 0); rewrite <- Zlt_Qlt; simpl; lia).
  split.
  - apply Qle_shift_div_l; [exact Hp|]. lra.
  - apply Qle_shift_div_r; [exact Hp|]. lra.
Qed.

Lemma sil_ratio_bounds a b :
  0 <= a -> 0 <= b ->
  -1 <= (if Qeq_bool (Qmax a b) 0 then 0 else (b - a) / Qmax a b) <= 1.
Proof.
  intros Ha Hb. destruct (Qeq_bool (Qmax a b) 0) eqn:E; [split; vm_compute; discriminate|].
  apply Qeq_bool_neq in E.
  pose proof (Q.le_max_l a b) as Hma. pose proof (Q.le_max_r a b) as Hmb.
  assert (Hm : 0 < Qmax a b).
  { destruct (proj1 (Qle_lteq 0 (Qmax a b))) as [Hlt|Heq]; [lra|exact Hlt|].
    exfalso. apply E. now symmetry. }
  split.
  - apply Qle_shift_div_l; [exact Hm|]. lra.
  - apply Qle_shift_div_r; [exact Hm|]. lra.
Qed.

Section Score.
Variable D : list (list Q).
Variable labels : list nat.
Hypothesis HD : forall r c, 0 <= mat_get D r c.

Lemma sil_sample_bounds i : -1 <= sil_sample D labels i <= 1.
Proof.
  unfold sil_sample. cbv zeta.
  destruct (length (members labels (nth i labels 0%nat)) <=? 1)%nat;
    [split; vm_compute; discriminate|].
  apply sil_ratio_bounds.
  - apply div_nonneg; [|apply nat_nonneg]. apply sumQ_nonneg.
    intros x Hx. apply in_map_iff in Hx as [j [<- _]]. apply HD.
  - set (bs := map _ _).
    assert (Hbs : forall x, In x bs -> 0 <= x).
    { intros x Hx. unfold bs in Hx. apply in_map_iff in Hx as [l [<- _]].
      apply mean_nonneg. intros y Hy. apply in_map_iff in Hy as [j [<- _]]. apply HD. }
    apply fold_min_nonneg.
    + destruct bs as [|b bs']; simpl; [apply Qle_refl|apply Hbs; now left].
    + intros x Hx. apply Hbs. destruct bs as [|b bs']; [destruct Hx|now right].
Qed.

Lemma silhouette_score_bounds s :
  silhouette_score D labels = Ok s -> -1 <= s <= 1.
Proof.
  unfold silhouette_score. destruct (_ && _); [|discriminate].
  intro H; injection H as <-. apply mean_sym_bounds.
  intros x Hx. apply in_map_iff in Hx as [i [<- _]]. apply sil_sample_bounds.
Qed.

End Score.

(** The entries of a Gower matrix, as read by [mat_get], are non-negative. *)
Lemma gower_mat_get_nonneg mask data r c :
  (1 <= length mask)%nat -> 0 <= mat_get (gower_matrix mask data) r c.
Proof.
  intro Hm.
  destruct (Nat.ltb_spec r (n_rows data)) as [Hr|Hr].
  - destruct (Nat.ltb_spec c (n_rows data)) as [Hc|Hc].
    + rewrite GowerLoop.gower_matrix_entry by assumption.
      apply (GowerBounds.gower_get_in_unit mask data Hm); lia.
    + unfold mat_get, gower_matrix.
      rewrite (GowerFacts.nth_map_seq
                 (fun r => map (gower_matrix_fn mask data r) (seq 0 (n_rows data)))) by exact Hr.
      rewrite nth_overflow by (rewrite length_map, length_seq; lia). apply Qle_refl.
  - unfold mat_get. rewrite (nth_overflow (gower_matrix mask data))
      by (rewrite DrawFacts.gower_matrix_length; unfold n_rows in Hr; lia).
    destruct c; apply Qle_refl.
Qed.

End SilhouetteFacts.

(** * Identical records *)

Module DuplicateFacts.
Import Gower GowerFacts.

Lemma gower_get_same_rows mask data a b :
  (a < n_rows data)%nat -> (b < n_rows data)%nat -> nth a data [] = nth b data [] ->
  gower_get mask data a b = gower_get mask data a a.
Proof.
  intros Ha Hb E. unfold n_rows in *.
  assert (Hc : nth b (Z_cat mask data) [] = nth a (Z_cat mask data) []).
  { unfold Z_cat. rewrite !(nth_map_lt (A := row) (B := row) _ _ _ _ []) by assumption. now rewrite E. }
  assert (Hn : nth b (Z_num_scaled mask data) [] = nth a (Z_num_scaled mask data) []).
  { unfold Z_num_scaled, Z_num.
    rewrite !(nth_map_lt (A := row) (B := row) _ _ _ _ []) by (rewrite ?length_map; assumption).
    now rewrite E. }
  unfold gower_get. rewrite Hc, Hn. reflexivity.
Qed.

End DuplicateFacts.

(** * Silhouette scores recorded by the bootstrap *)

Module BootSilFacts.
Import Gower Bootstrap SilhouetteFacts.

Lemma draw_gd R ri kc labels columns fm best_k m i st idx gd L st' :
  draw R ri kc labels columns fm best_k m i st = Ok (idx, gd, L, st') ->
  exists rows, gd = gower_matrix (cat_mask columns) rows.
Proof.
  unfold draw.
  destruct (NpRandom.choice R ri (n labels) m st) as [[idx0 st0]|e]; cbn [bind];
    [|discriminate].
  destruct (iloc fm (sort_nat idx0)) as [rows|e]; cbn [bind]; [|discriminate].
  destruct (gower_matrix_checked (cat_mask columns) rows) as [gd0|e] eqn:Eg;
    cbn [bind]; [|discriminate].
  apply DrawFacts.gower_checked_eq in Eg. subst gd0.
  destruct (KMedoids.fit_predict kc (Z.of_nat i) best_k
              (gower_matrix (cat_mask columns) rows)); cbn [bind]; [|discriminate].
  intro H; injection H as _ <- _ _. eexists; reflexivity.
Qed.

Section Run.
Variable R : Type.
Variable ri : R -> nat -> nat * R.
Variable kc : Z -> nat -> list (list Q) -> list nat.
Variable ari : list nat -> list nat -> Q.
Variable labels : list nat.
Variable columns : list string.
Variable fm : list row.
Variable best_k : nat.
Hypothesis Hcol : (1 <= length columns)%nat.

Local Abbreviation draw' := (draw R ri kc labels columns fm best_k).
Local Abbreviation iterate' := (iterate R ri kc ari labels columns fm best_k).

Definition in_range (l : list Q) : Prop := forall x, In x l -> -1 <= x <= 1.

Lemma iterate_sil m r : forall i s s',
  iterate' m i r s = Ok s' -> in_range (sil_acc s) -> in_range (sil_acc s').
Proof.
  induction r as [|r IH]; intros i s s' H Hs; simpl in H.
  - injection H as <-. exact Hs.
  - destruct (trial R ri kc ari labels columns fm best_k m i s) as [s1|e] eqn:Et;
      cbn [bind] in H; [|discriminate].
    apply (IH (S i) s1 s' H).
    pose proof (BootFacts.trial_cases R ri kc ari labels columns fm best_k m i s) as C.
    destruct (draw' m i (rng s)) as [[[[idx gd] L] st']|e] eqn:Ed; [|congruence].
    cbv zeta in C.
    destruct (1 <? n_distinct L)%nat.
    + destruct (Silhouette.silhouette_score gd L) as [sil|e] eqn:Es; [|congruence].
      rewrite Et in C. injection C as ->. simpl.
      intros x Hx. apply in_app_or in Hx as [Hx|[<-|[]]]; [now apply Hs|].
      destruct (draw_gd _ _ _ _ _ _ _ _ _ _ _ _ _ _ Ed) as [rows ->].
      apply (silhouette_score_bounds (gower_matrix (cat_mask columns) rows) L); [|exact Es].
      intros r0 c0. apply gower_mat_get_nonneg. unfold cat_mask. now rewrite length_map.
    + rewrite Et in C. injection C as ->. exact Hs.
Qed.

End Run.
End BootSilFacts.

Module BootExtras2.
Import Gower Bootstrap StabilityFacts BootSilFacts.

(** Property X5: The keys of [cluster_stability] are the distinct cluster labels of the
    input frame, each once, in increasing order (the loop runs over
    [sorted(df["cluster"].unique())] and inserts each into an empty
    dictionary). *)
Theorem cluster_stability_keys
    (R : Type) (ri : R -> nat -> nat * R)
    (kc : Z -> nat -> list (list Q) -> list nat) (ari : list nat -> list nat -> Q)
    (labels : list nat) (columns : list string) (fm : list row)
    (best_k n_iter : nat) (frac : Q) (st : R) res st' :
  bootstrap_validation R ri kc ari labels columns fm best_k n_iter frac st = Ok (res, st') ->
  Sorted le (Dict.keys (cluster_stability res)) /\
  NoDup (Dict.keys (cluster_stability res)) /\
  forall c, In c (Dict.keys (cluster_stability res)) <-> In c labels.
Proof.
  unfold bootstrap_validation. intro H.
  destruct (bootstrap_loop R ri kc ari labels columns fm best_k n_iter frac st)
    as [s|e]; cbn [bind] in H; [|discriminate].
  injection H as <- _. cbn [cluster_stability].
  set (stab := stability_of (coassoc s) (count_matrix s)).
  unfold cluster_stability_of.
  rewrite (fold_left_ext_step _ (fun d c => Dict.set d c (cs_value labels stab c)))
    by (intros d x; unfold cs_value; cbv zeta;
        destruct (1 <? length (members_of labels x))%nat; reflexivity).
  pose proof (ScanFacts.sort_nat_perm (nodup Nat.eq_dec labels)) as Hp.
  assert (Hnd : NoDup (sort_nat (nodup Nat.eq_dec labels)))
    by (eapply Permutation_NoDup; [exact Hp|apply NoDup_nodup]).
  rewrite DictFacts.keys_fold_set; [|exact Hnd|intros x _ []].
  simpl. split; [apply SortFacts.sort_nat_sorted|]. split; [exact Hnd|].
  intro c. split; intro Hc.
  - apply (nodup_In Nat.eq_dec). eapply Permutation_in; [symmetry; exact Hp|exact Hc].
  - eapply Permutation_in; [exact Hp|]. apply (nodup_In Nat.eq_dec). exact Hc.
Qed.

Lemma cluster_stability_keys_witness :
  exists res st', Scenarios.run 2 1 [3; 2; 1]%nat = Ok (res, st') /\
  Sorted le (Dict.keys (cluster_stability res)) /\
  NoDup (Dict.keys (cluster_stability res)) /\
  forall c, In c (Dict.keys (cluster_stability res)) <-> In c Scenarios.boot_labels0.
Proof.
  destruct (Scenarios.run 2 1 [3; 2; 1]%nat) as [[res st']|e] eqn:E;
    [|vm_compute in E; discriminate].
  exists res, st'. split; [reflexivity|].
  exact (cluster_stability_keys _ _ _ _ _ _ _ _ _ _ _ _ _ E).
Defined.

(** Property X6: With at least one feature column, every silhouette score collected by
    the bootstrap lies in [-1, 1]: each is the silhouette of a Gower matrix,
    whose entries are non-negative. *)
Theorem bootstrap_silhouettes_in_range
    (R : Type) (ri : R -> nat -> nat * R)
    (kc : Z -> nat -> list (list Q) -> list nat) (ari : list nat -> list nat -> Q)
    (labels : list nat) (columns : list string) (fm : list row)
    (best_k n_iter : nat) (frac : Q) (st : R) res st' :
  (1 <= length columns)%nat ->
  bootstrap_validation R ri kc ari labels columns fm best_k n_iter frac st = Ok (res, st') ->
  forall x, In x (sil_scores res) -> -1 <= x <= 1.
Proof.
  intros Hcol. unfold bootstrap_validation. intro H.
  destruct (bootstrap_loop R ri kc ari labels columns fm best_k n_iter frac st)
    as [s|e] eqn:Hs; cbn [bind] in H; [|discriminate].
  injection H as <- _. cbn [sil_scores].
  apply BootFacts.bootstrap_loop_ok in Hs as [m [_ Hs]].
  apply (iterate_sil R ri kc ari labels columns fm best_k Hcol _ _ _ _ _ Hs).
  intros x [].
Qed.

Lemma bootstrap_silhouettes_in_range_witness :
  exists res st', Scenarios.run 2 2 [1; 2; 3; 1; 2; 3]%nat = Ok (res, st') /\
  forall x, In x (sil_scores res) -> -1 <= x <= 1.
Proof.
  destruct (Scenarios.run 2 2 [1; 2; 3; 1; 2; 3]%nat) as [[res st']|e] eqn:E;
    [|vm_compute in E; discriminate].
  exists res, st'. split; [reflexivity|].
  refine (bootstrap_silhouettes_in_range _ _ _ _ _ _ _ _ _ _ _ _ _ _ E).
  apply Nat.leb_le; vm_compute; reflexivity.
Defined.

End BootExtras2.

(** * Further properties of the candidate scan and of [apply_best_k] *)

Module ScanExtras.
Import Gower Scan Features Apply ArgmaxFacts PipelineFacts SilhouetteFacts.

(** Property X7: Ties: [plot_silhouette_scores] returns the smallest [k] among those
    with the highest silhouette, since the keys are sorted and [np.argmax]
    returns the first maximum; every smaller key has a strictly lower
    silhouette. *)
Theorem best_k_smallest_among_ties (results : list (nat * candidate)) (best_k : nat) :
  plot_silhouette_scores results = Ok best_k ->
  exists cb, Dict.get results best_k = Some cb /\
  forall k c, Dict.get results k = Some c -> (k < best_k)%nat ->
    silhouette c < silhouette cb.
Proof.
  intro H.
  destruct (plot_spec results best_k H)
    as (ks & sils & i & cb & Eks & Ha & Eb & Hlen & Hi & Gb & Ei & Hall).
  exists cb. split; [exact Gb|]. intros k c Gk Hk.
  assert (Hin : In k ks).
  { rewrite Eks. eapply Permutation_in; [apply ScanFacts.sort_nat_perm|].
    eapply ScanFacts.dict_get_in. exact Gk. }
  apply In_nth with (d := 0%nat) in Hin as [p [Hp Ep]].
  destruct (Nat.ltb_spec p i) as [Hpi|Hpi].
  - rewrite <- Ei, <- (Hall p c Hp ltac:(now rewrite Ep)).
    apply (argmax_first sils i Ha p Hpi).
  - exfalso.
    assert (Hs : Sorted le ks) by (rewrite Eks; apply SortFacts.sort_nat_sorted).
    pose proof (SortFacts.sorted_nth_le ks Hs i p Hpi Hp). lia.
Qed.

Lemma best_k_smallest_among_ties_witness :
  exists cb, Dict.get [(4%nat, mk_candidate [] (1#2)); (3%nat, mk_candidate [] (1#2));
                       (5%nat, mk_candidate [] (1#4))] 3%nat = Some cb /\
  forall k c, Dict.get [(4%nat, mk_candidate [] (1#2)); (3%nat, mk_candidate [] (1#2));
                        (5%nat, mk_candidate [] (1#4))] k = Some c -> (k < 3)%nat ->
    silhouette c < silhouette cb.
Proof.
  apply best_k_smallest_among_ties. vm_compute. reflexivity.
Defined.

(** Property X8: After [compute_gower_and_cluster], [plot_silhouette_scores] and
    [apply_best_k] ([run], lines 228-234), given a k-medoids run that labels
    every row and a frame with one row per feature-matrix row: the only
    errors are those of the scan itself, and the [ValueError] of [np.argmax]
    on an empty range of [k]; [apply_best_k] never raises.  On success
    [best_k] is in the range, the frame's [cluster] column holds the labels
    of the k-medoids run for [best_k] with [random_state=42], and the other
    columns are unchanged. *)
Theorem pipeline_outcome (kc : Z -> nat -> list (list Q) -> list nat)
    (Hkc : forall s k D, length (kc s k D) = length D)
    (df : frame) (columns : list string) (fm : list row) (ks : list nat) :
  n_index df = Some (length fm) ->
  match cluster_and_apply kc df columns fm ks with
  | Ok (df', D, results, best_k) =>
      In best_k ks /\ D = gower_matrix (cat_mask columns) fm /\
      lookup df' "cluster" = Some (label_column (kc 42%Z best_k D)) /\
      forall nm, String.eqb nm "cluster" = false -> lookup df' nm = lookup df nm
  | Err e =>
      compute_gower_and_cluster kc columns fm ks = Err e \/ (ks = [] /\ e = ValueError)
  end.
Proof.
  intro Hn. unfold cluster_and_apply.
  destruct (compute_gower_and_cluster kc columns fm ks) as [[D results]|e] eqn:Hc;
    cbn [bind]; [|now left].
  unfold compute_gower_and_cluster in Hc.
  destruct (gower_matrix_checked (cat_mask columns) fm) as [D0|e] eqn:Eg;
    cbn [bind] in Hc; [|discriminate].
  apply DrawFacts.gower_checked_eq in Eg. subst D0.
  destruct (scan_loop kc (gower_matrix (cat_mask columns) fm) ks []) as [res|e] eqn:Hs;
    cbn [bind] in Hc; [|discriminate].
  injection Hc as <- <-.
  destruct (plot_silhouette_scores res) as [best_k|e] eqn:Hp; cbn [bind].
  - destruct (plot_spec res best_k Hp) as (_ & _ & _ & cb & _ & _ & _ & _ & _ & Gb & _).
    destruct (scan_loop_entries kc _ ks [] res Hs best_k cb Gb) as [G0|[Hin Hl]];
      [discriminate|].
    unfold apply_best_k. rewrite Gb. cbn [bind]. rewrite Hn, Hl, Hkc,
      DrawFacts.gower_matrix_length, Nat.eqb_refl. cbn [bind].
    split; [exact Hin|]. split; [reflexivity|].
    rewrite FeatureFacts.lookup_setitem, String.eqb_refl. split; [reflexivity|].
    intros nm Hnm. rewrite FeatureFacts.lookup_setitem, Hnm. reflexivity.
  - right. destruct ks as [|k ks'].
    + simpl in Hs. injection Hs as <-. vm_compute in Hp. split; [reflexivity|congruence].
    + exfalso.
      pose proof (scan_loop_keys kc _ _ [] res Hs k (or_introl (or_introl eq_refl))) as Hk.
      unfold plot_silhouette_scores in Hp.
      set (f := fun k => match Dict.get res k with
                         | Some c => Ok (silhouette c) | None => Err KeyError end) in Hp.
      pose proof (ScanFacts.sort_nat_perm (Dict.keys res)) as Hperm.
      destruct (FeatureFacts.mapM_ok f (sort_nat (Dict.keys res))) as [sils Hm].
      { intros x Hx. apply (Permutation_in _ (Permutation_sym Hperm)) in Hx.
        destruct (DictFacts.get_of_key res x Hx) as [v Hv]. unfold f. rewrite Hv.
        eexists; reflexivity. }
      rewrite Hm in Hp. cbn [bind] in Hp.
      destruct (ScanFacts.mapM_nth f _ sils 0%nat 0 Hm) as [Hlen _].
      destruct sils as [|x sils]; [|discriminate].
      apply (Permutation_in _ Hperm) in Hk. destruct (sort_nat (Dict.keys res));
        [destruct Hk|discriminate].
Qed.

Lemma first_medoids_core_length s k D :
  length (Scenarios.first_medoids_core s k D) = length D.
Proof.
  unfold Scenarios.first_medoids_core, KMedoids.labels_from_medoids.
  now rewrite length_map, length_seq.
Qed.

Lemma pipeline_outcome_witness :
  match cluster_and_apply Scenarios.first_medoids_core Scenarios.scan_df
          Scenarios.dup_columns Scenarios.scan_rows [2; 3]%nat with
  | Ok (df', D, results, best_k) =>
      In best_k [2; 3]%nat /\ D = gower_matrix (cat_mask Scenarios.dup_columns) Scenarios.scan_rows /\
      lookup df' "cluster" = Some (label_column (Scenarios.first_medoids_core 42%Z best_k D)) /\
      forall nm, String.eqb nm "cluster" = false -> lookup df' nm = lookup Scenarios.scan_df nm
  | Err e =>
      compute_gower_and_cluster Scenarios.first_medoids_core Scenarios.dup_columns
        Scenarios.scan_rows [2; 3]%nat = Err e \/ ([2; 3]%nat = [] /\ e = ValueError)
  end.
Proof.
  apply (pipeline_outcome _ first_medoids_core_length). reflexivity.
Defined.

Lemma scan_loop_sils (kc : Z -> nat -> list (list Q) -> list nat) D ks : forall acc res,
  scan_loop kc D ks acc = Ok res ->
  forall k c, Dict.get res k = Some c ->
  Dict.get acc k = Some c \/ Silhouette.silhouette_score D (labels c) = Ok (silhouette c).
Proof.
  induction ks as [|k ks IH]; intros acc res H k' c Hg; simpl in H.
  - injection H as <-. now left.
  - destruct (KMedoids.fit_predict kc 42%Z k D) as [L|e]; cbn [bind] in H; [|discriminate].
    destruct (Silhouette.silhouette_score D L) as [sil|e] eqn:Es;
      cbn [bind] in H; [|discriminate].
    destruct (IH _ _ H k' c Hg) as [Ha|Hb]; [|now right].
    rewrite ScanLoop.get_set in Ha. destruct (Nat.eqb_spec k' k); [|now left].
    injection Ha as <-. right. exact Es.
Qed.

(** Property X9: With at least one feature column, every silhouette stored in the
    candidate table lies in [-1, 1]. *)
Theorem scan_silhouettes_in_range (kc : Z -> nat -> list (list Q) -> list nat)
    (columns : list string) (fm : list row) (ks : list nat) D results :
  (1 <= length columns)%nat ->
  compute_gower_and_cluster kc columns fm ks = Ok (D, results) ->
  forall k c, Dict.get results k = Some c -> -1 <= silhouette c <= 1.
Proof.
  intros Hcol Hc. unfold compute_gower_and_cluster in Hc.
  destruct (gower_matrix_checked (cat_mask columns) fm) as [D0|e] eqn:Eg;
    cbn [bind] in Hc; [|discriminate].
  apply DrawFacts.gower_checked_eq in Eg. subst D0.
  destruct (scan_loop kc (gower_matrix (cat_mask columns) fm) ks []) as [res|e] eqn:Hs;
    cbn [bind] in Hc; [|discriminate].
  injection Hc as <- <-. intros k c Hg.
  destruct (scan_loop_sils kc _ ks [] res Hs k c Hg) as [G0|Es]; [discriminate|].
  apply (silhouette_score_bounds (gower_matrix (cat_mask columns) fm) (labels c)); [|exact Es].
  intros r0 c0. apply gower_mat_get_nonneg. unfold cat_mask. now rewrite length_map.
Qed.

Lemma scan_silhouettes_in_range_witness :
  exists D results,
    compute_gower_and_cluster Scenarios.first_medoids_core Scenarios.dup_columns
      Scenarios.scan_rows [2; 3]%nat = Ok (D, results) /\
    forall k c, Dict.get results k = Some c -> -1 <= silhouette c <= 1.
Proof.
  destruct (compute_gower_and_cluster Scenarios.first_medoids_core Scenarios.dup_columns
              Scenarios.scan_rows [2; 3]%nat) as [[D results]|e] eqn:E;
    [|vm_compute in E; discriminate].
  exists D, results. split; [reflexivity|].
  refine (scan_silhouettes_in_range _ _ _ _ _ _ _ E).
  apply Nat.leb_le; vm_compute; reflexivity.
Defined.

End ScanExtras.

(** * Distances between identical records *)

Module GowerExtras.
Import Gower DuplicateFacts.

(** Property X10: In a feature matrix without missing values, with at least
    one column, two records with identical feature values are at Gower
    distance 0 in the matrix computed for clustering, whichever columns are
    numeric. *)
Theorem identical_records_at_distance_zero (mask : list bool) (data : list row)
    (D : list (list Q)) (i j : nat) :
  gower_matrix_checked mask data = Ok D ->
  (i < length data)%nat -> (j < length data)%nat -> nth i data [] = nth j data [] ->
  mat_get D i j == 0.
Proof.
  intros HD Hi Hj E. rewrite (DrawFacts.gower_checked_eq _ _ _ HD).
  rewrite GowerLoop.gower_matrix_entry by assumption.
  destruct (Nat.le_ge_cases i j) as [Hij|Hij].
  - rewrite Nat.min_l, Nat.max_r by exact Hij.
    rewrite gower_get_same_rows by assumption. apply GowerBounds.gower_get_diag.
  - rewrite Nat.min_r, Nat.max_l by exact Hij.
    rewrite gower_get_same_rows by (try assumption; now symmetry).
    apply GowerBounds.gower_get_diag.
Qed.

Lemma identical_records_at_distance_zero_witness :
  exists D, gower_matrix_checked (cat_mask Scenarios.dup_columns) Scenarios.dup_rows = Ok D /\
            mat_get D 2 3 == 0.
Proof.
  destruct (gower_matrix_checked (cat_mask Scenarios.dup_columns) Scenarios.dup_rows)
    as [D|e] eqn:E; [|vm_compute in E; discriminate].
  exists D. split; [reflexivity|].
  apply (identical_records_at_distance_zero _ _ D 2 3 E); [simpl; lia|simpl; lia|reflexivity].
Defined.

End GowerExtras.

(** * Scaling and one-hot encoding in [prepare_features] *)

Module FeatureExtrasFacts.
Import Features.

Lemma somes_map_opt (f : Q -> Q) (xs : list (option Q)) :
  somes (map (fun o => match o with Some x => Some (f x) | None => None end) xs) =
  map f (somes xs).
Proof. induction xs as [|[x|] xs IH]; simpl; [reflexivity| |]; now rewrite IH. Qed.

Lemma somes_all_none {A} (xs : list (option A)) :
  somes (map (fun _ => @None A) xs) = [].
Proof. induction xs as [|o xs IH]; simpl; [reflexivity|exact IH]. Qed.

Lemma somes_nil_nth {A} (xs : list (option A)) r :
  somes xs = [] -> nth r xs None = None.
Proof.
  revert r. induction xs as [|[x|] xs IH]; intros r H; simpl in H;
    [destruct r; reflexivity|discriminate|].
  destruct r; [reflexivity|]. simpl. now apply IH.
Qed.

Lemma nth_all_none {A B} (xs : list A) r :
  nth r (map (fun _ => @None B) xs) None = None.
Proof.
  revert r. induction xs as [|x xs IH]; intro r; [destruct r; reflexivity|].
  destruct r; [reflexivity|apply IH].
Qed.

Lemma sumQ_centered (l : list Q) (mu sc : Q) :
  sumQ (map (fun x => (x - mu) / sc) l) ==
  (sumQ l - inject_Z (Z.of_nat (length l)) * mu) / sc.
Proof.
  induction l as [|a l IH]; unfold sumQ in *; cbn [map fold_right length].
  - unfold Qdiv. ring.
  - rewrite IH. rewrite Nat2Z.inj_succ, <- Z.add_1_r, inject_Z_plus.
    unfold Qdiv. ring.
Qed.

Lemma mean_centered (vals : list Q) (sc : Q) :
  vals <> [] ->
  sumQ (map (fun x => (x - Silhouette.mean vals) / sc) vals) == 0.
Proof.
  intro Hv. rewrite sumQ_centered. unfold Silhouette.mean.
  assert (HN : ~ inject_Z (Z.of_nat (length vals)) == 0).
  { destruct vals as [|v t]; [congruence|]. simpl.
    intro E. apply (inject_Z_injective _ 0) in E. discriminate. }
  rewrite (Qmult_div_r _ _ HN). unfold Qdiv. ring.
Qed.

Section Scale.
Variable sqrt : Q -> Q.

Lemma scale_column_spec (xs : list (option Q)) :
  length (scale_column sqrt xs) = length xs /\
  (forall r, nth r (scale_column sqrt xs) None = None <-> nth r xs None = None) /\
  sumQ (somes (scale_column sqrt xs)) == 0.
Proof.
  unfold scale_column. destruct (somes xs) as [|v t] eqn:E.
  - rewrite length_map, somes_all_none. split; [reflexivity|]. split; [|reflexivity].
    intro r. rewrite nth_all_none, (somes_nil_nth xs r E). tauto.
  - cbv zeta. split; [now rewrite length_map|]. split.
    + intro r. destruct (Nat.lt_ge_cases r (length xs)) as [Hr|Hr].
      * rewrite (GowerFacts.nth_map_lt _ _ _ _ None Hr).
        destruct (nth r xs None); split; congruence.
      * rewrite !nth_overflow by (try rewrite length_map; lia). tauto.
    + rewrite somes_map_opt, E. apply mean_centered. discriminate.
Qed.

End Scale.

Lemma insert_str_perm x l : Permutation (insert_str x l) (x :: l).
Proof.
  induction l as [|y l IH]; simpl; [reflexivity|].
  destruct (String.leb x y); [reflexivity|].
  rewrite IH. apply perm_swap.
Qed.

Lemma sort_str_perm l : Permutation (sort_str l) l.
Proof.
  induction l as [|x l IH]; simpl; [reflexivity|].
  rewrite insert_str_perm. now apply perm_skip.
Qed.

Lemma categories_spec xs :
  NoDup (categories xs) /\ forall v, In v (categories xs) <-> In (Some v) xs.
Proof.
  unfold categories. pose proof (sort_str_perm (nodup string_dec (somes xs))) as Hp.
  split.
  - eapply Permutation_NoDup; [symmetry; exact Hp|apply NoDup_nodup].
  - intro v. split; intro H.
    + apply (Permutation_in _ Hp) in H. apply nodup_In in H.
      unfold somes in H. apply in_flat_map in H as [[x|] [Hx Hv]]; [|destruct Hv].
      destruct Hv as [<-|[]]. exact Hx.
    + apply (Permutation_in _ (Permutation_sym Hp)). apply nodup_In.
      unfold somes. apply in_flat_map. exists (Some v). split; [exact H|now left].
Qed.

Lemma sum_indicator_in (x : string) (l : list string) :
  NoDup l ->
  sumQ (map (fun v => if String.eqb x v then 1 else 0) l) ==
  if existsb (String.eqb x) l then 1 else 0.
Proof.
  induction l as [|a l IH]; intro Hnd; unfold sumQ in *; simpl; [reflexivity|].
  inversion Hnd as [|? ? Ha Hl]; subst. rewrite (IH Hl).
  destruct (String.eqb_spec x a) as [->|Hxa]; simpl.
  - replace (existsb (String.eqb a) l) with false; [reflexivity|].
    symmetry. apply Bool.not_true_iff_false. intro E.
    apply existsb_exists in E as [y [Hy Ey]]. apply String.eqb_eq in Ey. subst. contradiction.
  - destruct (existsb (String.eqb x) l); reflexivity.
Qed.

End FeatureExtrasFacts.

(** * Encoding of one record set *)

Module FeatureEncodingFacts.
Import Features FeatureFacts.

Lemma select_map df names (f : string -> column) :
  (forall nm, In nm names -> lookup df nm = Some (f nm)) ->
  select df names = Ok (map (fun nm => (nm, f nm)) names).
Proof.
  unfold select. induction names as [|nm names IH]; intro H; [reflexivity|].
  cbn [Scan.mapM].
  assert (Hg : getitem df nm = Ok (f nm))
    by (unfold getitem; rewrite (H nm (or_introl eq_refl)); reflexivity).
  rewrite Hg. cbn [bind].
  rewrite IH by (intros; apply H; now right). reflexivity.
Qed.

Lemma fit_transform_map sqrt (g : string -> list (option Q)) names :
  names <> [] -> g (hd EmptyString names) <> [] ->
  fit_transform sqrt (map (fun nm => (nm, NumCol (g nm))) names) =
  Ok (map (fun nm => scale_column sqrt (g nm)) names).
Proof.
  intros Hn Hne. unfold fit_transform.
  assert (Hm : forall l, Scan.mapM (fun p => to_float (snd p))
                           (map (fun nm => (nm, NumCol (g nm))) l) = Ok (map g l)).
  { induction l as [|a l IH]; [reflexivity|]. cbn [map Scan.mapM snd to_float bind].
    rewrite IH. reflexivity. }
  rewrite Hm. cbn [bind].
  destruct names as [|nm names]; [congruence|]. cbn [hd map] in *.
  destruct (g nm) as [|x xs] eqn:E; [congruence|]. cbn [length Nat.eqb].
  rewrite map_map. reflexivity.
Qed.

Lemma median_list_some (l : list Q) : l <> [] -> exists m, median_list l = Some m.
Proof.
  intro H. unfold median_list.
  assert (Hs : sortQ l <> []).
  { destruct l as [|x t]; [congruence|]. simpl. destruct (sortQ t); simpl;
      [discriminate|destruct (Qle_bool x q); discriminate]. }
  destruct (sortQ l) as [|y t]; [congruence|]. cbn [length Nat.eqb].
  destruct (Nat.odd _); eexists; reflexivity.
Qed.

Lemma lookup_scaled (h : string -> list (option Q)) (rest : frame) nm :
  In nm NUMERICAL_FEATURES ->
  lookup (combine (map (fun c => (c ++ "_scaled")%string) NUMERICAL_FEATURES)
                  (map NumCol (map h NUMERICAL_FEATURES)) ++ rest) (nm ++ "_scaled") =
  Some (NumCol (h nm)).
Proof.
  simpl. intros [<-|[<-|[<-|[<-|[<-|[]]]]]]; reflexivity.
Qed.

Lemma mapM_In_fwd {A B} (f : A -> result B) l ys x :
  Scan.mapM f l = Ok ys -> In x l -> exists y, f x = Ok y /\ In y ys.
Proof.
  revert ys. induction l as [|a l IH]; intros ys H Hx; [destruct Hx|]. simpl in H.
  destruct (f a) as [b|e] eqn:Ea; simpl in H; [|discriminate].
  destruct (Scan.mapM f l) as [zs|e] eqn:El; simpl in H; [|discriminate].
  injection H as <-. destruct Hx as [<-|Hx].
  - exists b. split; [exact Ea|now left].
  - destruct (IH zs eq_refl Hx) as [y [Fy Hy]]. exists y. split; [exact Fy|now right].
Qed.

Lemma astype_int_in X Y nm zs :
  astype_int X = Ok Y -> In (nm, NumCol zs) X ->
  In (nm, NumCol (map (option_map trunc) zs)) Y.
Proof.
  intros H Hin. destruct (mapM_In_fwd _ _ _ _ H Hin) as [y [Fy Hy]].
  cbn [snd fst astype_int_col] in Fy.
  destruct (forallb _ zs); cbn [bind] in Fy; [|discriminate].
  injection Fy as <-. exact Hy.
Qed.

End FeatureEncodingFacts.

Module FeatureClaims.
Import Features FeatureFacts FeatureExtrasFacts FeatureEncodingFacts.

(** Claim C6 (counterexample): a record with no recorded [Gender] is
    not rejected: [prepare_features] returns a feature matrix in which the
    record has 0 in every [Gender] indicator. *)
Lemma missing_gender_is_encoded :
  match prepare_features Scenarios.sqrt_newton Scenarios.gender_missing_df with
  | Ok fm => lookup fm "Gender_F" = Some (NumCol [Some 1; Some 0]) /\ length fm = 12%nat
  | Err _ => False
  end.
Proof. vm_compute. split; reflexivity. Qed.

(** Claim C6 (as amended): [prepare_features] has no input check of its
    own; what it raises comes from pandas and scikit-learn.  A required
    column absent from the frame makes it raise (a [KeyError] at the latest,
    when the column is selected); a frame with zero records and all the
    numerical columns makes [StandardScaler] raise [ValueError].  Missing
    cells are not rejected: a frame whose numerical columns are numeric and
    non-empty, whose binary columns are present and whose categorical
    columns are text is encoded.  Then [PatientWeight_scaled] is the scaled
    weight column with its missing values replaced by the median (when some
    weight is recorded) and has no missing value; every other scaled
    numerical column is missing exactly where its input is; and a record
    with no value for a categorical attribute has 0 in each of that
    attribute's indicator columns. *)
Theorem prepare_features_errors (sqrt : Q -> Q) (df : frame) :
  ((exists nm, In nm (NUMERICAL_FEATURES ++ BINARY_FEATURES ++ CATEGORICAL_FEATURES) /\
               lookup df nm = None) ->
   exists e, prepare_features sqrt df = Err e) /\
  ((forall nm, In nm NUMERICAL_FEATURES -> lookup df nm <> None) ->
   (forall nm c, lookup df nm = Some c -> col_len c = 0%nat) ->
   prepare_features sqrt df = Err ValueError) /\
  ((forall nm, In nm NUMERICAL_FEATURES -> exists xs, lookup df nm = Some (NumCol xs) /\ xs <> []) ->
   (forall nm, In nm BINARY_FEATURES -> lookup df nm <> None) ->
   (forall nm, In nm CATEGORICAL_FEATURES -> exists xs, lookup df nm = Some (StrCol xs)) ->
   exists fm, prepare_features sqrt df = Ok fm /\
   (forall xs, lookup df "PatientWeight" = Some (NumCol xs) -> somes xs <> [] ->
      exists m, median_list (somes xs) = Some m /\
      let ys := scale_column sqrt
                  (map (fun o => match o with Some x => Some x | None => Some m end) xs) in
      lookup fm "PatientWeight_scaled" = Some (NumCol ys) /\
      length ys = length xs /\ forall r, (r < length ys)%nat -> nth r ys None <> None) /\
   (forall nm xs, In nm NUMERICAL_FEATURES -> nm <> "PatientWeight"%string ->
      lookup df nm = Some (NumCol xs) ->
      exists ys, lookup fm (nm ++ "_scaled") = Some (NumCol ys) /\
      length ys = length xs /\ forall r, nth r ys None = None <-> nth r xs None = None) /\
   (forall nm xs r v, In nm CATEGORICAL_FEATURES -> lookup df nm = Some (StrCol xs) ->
      (r < length xs)%nat -> nth r xs None = None -> In v (categories xs) ->
      exists zs, In ((nm ++ "_" ++ v)%string, NumCol zs) fm /\ nth r zs None = Some 0)).
Proof.
  split; [|split].
  - intros [nm [Hin Hnone]]. unfold prepare_features.
    destruct (getitem df "PatientWeight") as [w|e] eqn:Ew; cbn [bind];
      [|eexists; reflexivity].
    destruct (median w) as [med|e]; cbn [bind]; [|eexists; reflexivity].
    remember (setitem df "PatientWeight" (fillna w med)) as df' eqn:Edf.
    assert (Hl' : lookup df' nm = None).
    { subst df'. rewrite lookup_setitem.
      destruct (String.eqb_spec nm "PatientWeight") as [->|_]; [|exact Hnone].
      unfold getitem in Ew. rewrite Hnone in Ew. discriminate. }
    apply in_app_or in Hin as [Hin|Hin].
    + destruct (select_err df' _ nm Hin Hl') as [e He]. rewrite He. cbn [bind].
      eexists; reflexivity.
    + destruct (select df' NUMERICAL_FEATURES) as [num|e]; cbn [bind]; [|eexists; reflexivity].
      destruct (fit_transform sqrt num) as [sc|e]; cbn [bind]; [|eexists; reflexivity].
      apply in_app_or in Hin as [Hin|Hin].
      * destruct (select_err df' _ nm Hin Hl') as [e He]. rewrite He. cbn [bind].
        eexists; reflexivity.
      * destruct (select df' BINARY_FEATURES) as [b|e]; cbn [bind]; [|eexists; reflexivity].
        destruct (select_err df' _ nm Hin Hl') as [e He]. rewrite He. cbn [bind].
        eexists; reflexivity.
  - intros Hpres Hemp. unfold prepare_features.
    destruct (lookup df "PatientWeight") as [w|] eqn:Hw;
      [|exfalso; exact (Hpres "PatientWeight"%string (or_intror (or_introl eq_refl)) Hw)].
    unfold getitem. rewrite Hw. cbn [bind].
    assert (Hm : median w = Ok None).
    { pose proof (Hemp _ _ Hw) as H0. destruct w as [[|]|[|]]; simpl in *;
        try discriminate; reflexivity. }
    rewrite Hm. cbn [bind].
    replace (fillna w None) with w by (destruct w; reflexivity).
    remember (setitem df "PatientWeight" w) as df' eqn:Edf.
    assert (Hl' : forall nm, lookup df' nm = lookup df nm).
    { intro nm. subst df'. rewrite lookup_setitem.
      destruct (String.eqb_spec nm "PatientWeight") as [->|]; [now rewrite Hw|reflexivity]. }
    destruct (select_ok df' NUMERICAL_FEATURES) as [num Hnum];
      [intros nm Hin; rewrite Hl'; now apply Hpres|].
    rewrite Hnum. cbn [bind].
    rewrite fit_transform_empty; [reflexivity|].
    intros p Hp. destruct (select_In _ _ _ Hnum p Hp) as [_ Hlp].
    rewrite Hl' in Hlp. exact (Hemp _ _ Hlp).
  - intros Hnum Hbin Hcat. unfold prepare_features.
    destruct (Hnum "PatientWeight"%string (or_intror (or_introl eq_refl))) as [xsw [Hw _]].
    unfold getitem. rewrite Hw. cbn [bind median].
    set (wc := fillna (NumCol xsw) (median_list (somes xsw))).
    set (df' := setitem df "PatientWeight" wc).
    assert (Hl' : forall nm, lookup df' nm =
                  if String.eqb nm "PatientWeight" then Some wc else lookup df nm)
      by (intro nm; apply lookup_setitem).
    set (f := fun nm => match lookup df' nm with Some c => c | None => NumCol [] end).
    assert (Hf : forall nm, lookup df' nm <> None -> lookup df' nm = Some (f nm))
      by (intros nm H; unfold f; destruct (lookup df' nm); [reflexivity|congruence]).
    set (g := fun nm => match f nm with NumCol ys => ys | StrCol _ => [] end).
    assert (Hnum' : forall nm, In nm NUMERICAL_FEATURES -> String.eqb nm "PatientWeight" = false ->
                    forall xs, lookup df nm = Some (NumCol xs) -> g nm = xs).
    { intros nm _ Hne xs Hx. unfold g, f. rewrite Hl', Hne, Hx. reflexivity. }
    assert (Hg : forall nm, In nm NUMERICAL_FEATURES -> f nm = NumCol (g nm)).
    { intros nm Hin. unfold g, f. rewrite Hl'.
      destruct (String.eqb nm "PatientWeight").
      - unfold wc. destruct (median_list _); reflexivity.
      - destruct (Hnum nm Hin) as [ys [Hy _]]. rewrite Hy. reflexivity. }
    rewrite (select_map df' NUMERICAL_FEATURES f).
    2:{ intros nm Hin. apply Hf. rewrite Hl'.
        destruct (String.eqb nm "PatientWeight"); [discriminate|].
        destruct (Hnum nm Hin) as [ys [Hy _]]. rewrite Hy. discriminate. }
    rewrite (map_ext_in _ (fun nm => (nm, NumCol (g nm))) NUMERICAL_FEATURES)
      by (intros nm Hin; now rewrite Hg).
    cbn [bind].
    rewrite (fit_transform_map sqrt g NUMERICAL_FEATURES); [|discriminate|].
    2:{ change (g "age_months"%string <> []).
        destruct (Hnum "age_months"%string (or_introl eq_refl)) as [xs0 [H0 Hne]].
        rewrite (Hnum' "age_months"%string (or_introl eq_refl) eq_refl xs0 H0). exact Hne. }
    cbn [bind].
    rewrite (select_map df' BINARY_FEATURES f).
    2:{ intros nm Hin. apply Hf. rewrite Hl', (bin_not_weight nm Hin). now apply Hbin. }
    cbn [bind].
    rewrite (select_map df' CATEGORICAL_FEATURES f).
    2:{ intros nm Hin. apply Hf. rewrite Hl', (cat_not_weight nm Hin).
        destruct (Hcat nm Hin) as [ys Hy]. rewrite Hy. discriminate. }
    cbn [bind].
    destruct (dummies_astype (map (fun nm => (nm, f nm)) CATEGORICAL_FEATURES)) as [out Hout].
    { intros p Hp. apply in_map_iff in Hp as [nm [<- Hin]]. cbn [snd].
      unfold f. rewrite Hl', (cat_not_weight nm Hin).
      destruct (Hcat nm Hin) as [ys Hy]. rewrite Hy. eexists; reflexivity. }
    rewrite Hout. cbn [bind].
    eexists. split; [reflexivity|]. split; [|split].
    + intros xs Hx Hs. injection Hx as <-.
      destruct (median_list_some (somes xsw) Hs) as [m Hm].
      exists m. split; [exact Hm|]. cbv zeta.
      assert (Ew : g "PatientWeight"%string =
                   map (fun o => match o with Some x => Some x | None => Some m end) xsw).
      { unfold g, f. rewrite Hl'. cbn [String.eqb]. unfold wc. rewrite Hm. reflexivity. }
      destruct (scale_column_spec sqrt
                  (map (fun o => match o with Some x => Some x | None => Some m end) xsw))
        as [Hlen [Hnone _]].
      split; [|split].
      * rewrite <- Ew. exact (lookup_scaled _ _ "PatientWeight"%string
                                (or_intror (or_introl eq_refl))).
      * rewrite Hlen. apply length_map.
      * intros r Hr. rewrite Hlen, length_map in Hr. rewrite Hnone.
        rewrite (GowerFacts.nth_map_lt _ _ _ _ None Hr).
        destruct (nth r xsw None); discriminate.
    + intros nm xs Hin Hne Hx.
      assert (Hne' : String.eqb nm "PatientWeight" = false)
        by (apply String.eqb_neq; exact Hne).
      exists (scale_column sqrt xs).
      destruct (scale_column_spec sqrt xs) as [Hlen [Hnone _]].
      split; [|split; [exact Hlen|exact Hnone]].
      rewrite <- (Hnum' nm Hin Hne' xs Hx). exact (lookup_scaled _ _ nm Hin).
    + intros nm xs r v Hin Hx Hr Hnr Hv.
      set (zs0 := map (fun o => match o with
                               | Some x => if String.eqb x v then Some 1 else Some 0
                               | None => Some 0
                               end) xs).
      exists (map (option_map trunc) zs0). split.
      * apply in_or_app. right. apply in_or_app. right.
        apply (astype_int_in _ _ _ _ Hout). unfold get_dummies. apply in_or_app. right.
        apply in_flat_map. exists (nm, f nm). split; [exact (in_map (fun nm => (nm, f nm)) _ _ Hin)|].
        assert (Efn : f nm = StrCol xs)
          by (unfold f; rewrite Hl', (cat_not_weight nm Hin), Hx; reflexivity).
        cbn [snd fst]. rewrite Efn. unfold dummies. apply in_map_iff.
        exists v. split; [reflexivity|exact Hv].
      * change (nth r (map (option_map trunc) zs0) (option_map trunc None) = Some 0).
        rewrite (map_nth (option_map trunc) zs0 None r).
        unfold zs0. rewrite (GowerFacts.nth_map_lt _ _ _ _ None Hr), Hnr. reflexivity.
Qed.

Lemma prepare_features_errors_witness :
  (exists e, prepare_features Scenarios.sqrt_newton Scenarios.no_gender_df = Err e) /\
  prepare_features Scenarios.sqrt_newton Scenarios.empty_df = Err ValueError /\
  (exists fm, prepare_features Scenarios.sqrt_newton Scenarios.gender_missing_df = Ok fm /\
   exists zs, In ("Gender_F"%string, NumCol zs) fm /\ nth 1 zs None = Some 0).
Proof.
  destruct (prepare_features_errors Scenarios.sqrt_newton Scenarios.no_gender_df) as [Ha _].
  destruct (prepare_features_errors Scenarios.sqrt_newton Scenarios.empty_df) as [_ [Hb _]].
  destruct (prepare_features_errors Scenarios.sqrt_newton Scenarios.gender_missing_df)
    as [_ [_ Hc]].
  split; [|split].
  - apply Ha. exists "Gender"%string. split; [simpl; tauto|reflexivity].
  - apply Hb.
    + intros nm Hin. intro E.
      repeat (destruct Hin as [<-|Hin]; [vm_compute in E; discriminate|]). destruct Hin.
    + intros nm c Hl. simpl in Hl.
      repeat match type of Hl with
             | context [if ?b then _ else _] => destruct b
             end;
        inversion Hl; reflexivity.
  - destruct Hc as [fm [E [_ [_ Hcat]]]].
    + intros nm Hin.
      repeat (destruct Hin as [<-|Hin]; [eexists; split; [reflexivity|discriminate]|]).
      destruct Hin.
    + intros nm Hin. intro E.
      repeat (destruct Hin as [<-|Hin]; [vm_compute in E; discriminate|]). destruct Hin.
    + intros nm Hin.
      repeat (destruct Hin as [<-|Hin]; [eexists; reflexivity|]). destruct Hin.
    + exists fm. split; [exact E|].
      refine (Hcat "Gender"%string [Some "F"%string; None] 1%nat "F"%string _ _ _ _ _).
      * simpl. tauto.
      * reflexivity.
      * apply Nat.ltb_lt. vm_compute. reflexivity.
      * reflexivity.
      * vm_compute. left. reflexivity.
Defined.

End FeatureClaims.


Module FeatureExtras.
Import Features FeatureExtrasFacts.

(** Property X11: [StandardScaler().fit_transform] keeps one column per input column and
    one value per row; a value is missing in the output exactly where it
    is missing in the input; and the non-missing values of each output
    column sum to 0 (their mean is 0), whatever the square root gives. *)
Theorem fit_transform_centered (sqrt : Q -> Q) (X : frame) out :
  fit_transform sqrt X = Ok out ->
  length out = length X /\
  forall p, (p < length X)%nat ->
  exists xs, to_float (snd (nth p X (EmptyString, NumCol []))) = Ok xs /\
    length (nth p out []) = length xs /\
    (forall r, nth r (nth p out []) None = None <-> nth r xs None = None) /\
    sumQ (somes (nth p out [])) == 0.
Proof.
  unfold fit_transform. intro H.
  destruct (Scan.mapM (fun p => to_float (snd p)) X) as [cols|e] eqn:Hc;
    cbn [bind] in H; [|discriminate].
  destruct (length (hd [] cols) =? 0)%nat; [discriminate|].
  injection H as <-.
  destruct (ScanFacts.mapM_nth _ _ _ (EmptyString, NumCol []) [] Hc) as [Hlen Hnth].
  rewrite length_map. split; [exact Hlen|]. intros p Hp.
  exists (nth p cols []). split; [exact (Hnth p Hp)|].
  rewrite (GowerFacts.nth_map_lt (scale_column sqrt) cols p [] []) by lia.
  apply scale_column_spec.
Qed.

(** Two numeric columns, each with one missing value. *)
Definition scale_example : frame :=
  [("age_months"%string, NumCol [Some 0; None; Some 24; Some 36]);
   ("num_antibiotics"%string, NumCol [Some 1; Some 1; None; Some 4])].

Lemma fit_transform_centered_witness :
  exists out,
    fit_transform Scenarios.sqrt_newton scale_example = Ok out /\
    length out = length scale_example /\
    forall p, (p < length scale_example)%nat ->
    exists xs, to_float (snd (nth p scale_example (EmptyString, NumCol []))) = Ok xs /\
      length (nth p out []) = length xs /\
      (forall r, nth r (nth p out []) None = None <-> nth r xs None = None) /\
      sumQ (somes (nth p out [])) == 0.
Proof.
  destruct (fit_transform Scenarios.sqrt_newton scale_example) as [out|e] eqn:E;
    [|vm_compute in E; discriminate].
  exists out. split; [reflexivity|].
  exact (fit_transform_centered Scenarios.sqrt_newton _ _ E).
Defined.

(** The value of an indicator cell. *)
Definition cell (c : column) (r : nat) : option Q :=
  match c with NumCol ys => nth r ys None | StrCol _ => None end.

(** Property X12: One-hot encoding of a categorical column: at every row each indicator
    cell holds 0 or 1, and the indicators of the row add up to 1 when the
    value is present and to 0 when it is missing. *)
Theorem dummies_one_hot (nm : string) (xs : list (option string)) (r : nat) :
  (r < length xs)%nat ->
  (forall p, In p (dummies nm xs) -> cell (snd p) r = Some 0 \/ cell (snd p) r = Some 1) /\
  sumQ (map (fun p => match cell (snd p) r with Some q => q | None => 0 end) (dummies nm xs)) ==
  match nth r xs None with Some _ => 1 | None => 0 end.
Proof.
  intro Hr. unfold dummies. split.
  - intros p Hp. apply in_map_iff in Hp as [v [<- _]]. cbn [snd cell].
    rewrite (GowerFacts.nth_map_lt _ _ _ _ None Hr).
    destruct (nth r xs None) as [x|]; [destruct (String.eqb x v)|]; auto.
  - rewrite map_map. cbn [snd cell].
    rewrite (map_ext_in _ (fun v => match nth r xs None with
                                    | Some x => if String.eqb x v then 1 else 0
                                    | None => 0 end)).
    2:{ intros v _. rewrite (GowerFacts.nth_map_lt _ _ _ _ None Hr).
        destruct (nth r xs None) as [x|]; [destruct (String.eqb x v)|]; reflexivity. }
    destruct (categories_spec xs) as [Hnd Hin].
    destruct (nth r xs None) as [x|] eqn:Ex.
    + rewrite (sum_indicator_in x _ Hnd).
      replace (existsb (String.eqb x) (categories xs)) with true; [reflexivity|].
      symmetry. apply existsb_exists. exists x. split; [|apply String.eqb_refl].
      apply Hin. rewrite <- Ex. apply nth_In. exact Hr.
    + apply GowerFacts.sumQ_zero. intros q Hq. apply in_map_iff in Hq as [v [<- _]].
      reflexivity.
Qed.

Lemma dummies_one_hot_witness :
  let xs := [Some "F"; None; Some "M"; Some "F"]%string in
  (forall p, In p (dummies "Gender" xs) -> cell (snd p) 2 = Some 0 \/ cell (snd p) 2 = Some 1) /\
  sumQ (map (fun p => match cell (snd p) 2 with Some q => q | None => 0 end)
            (dummies "Gender" xs)) ==
  match nth 2 xs None with Some _ => 1 | None => 0 end.
Proof.
  apply dummies_one_hot. apply Nat.leb_le. vm_compute. reflexivity.
Defined.

End FeatureExtras.

(** * Shape of the feature matrix *)

Module ShapeFacts.
Import Features FeatureFacts.

Definition all_len (df : frame) (N : nat) : Prop :=
  forall p, In p df -> col_len (snd p) = N.

Lemma lookup_len df nm c N : all_len df N -> lookup df nm = Some c -> col_len c = N.
Proof.
  intro H. induction df as [|[k v] t IH]; simpl; [discriminate|].
  destruct (String.eqb nm k).
  - intro E. injection E as <-. exact (H (k, v) (or_introl eq_refl)).
  - apply IH. intros p Hp. apply H. now right.
Qed.

Lemma setitem_len df nm c N : all_len df N -> col_len c = N -> all_len (setitem df nm c) N.
Proof.
  intros H Hc. induction df as [|[k v] t IH]; simpl.
  - intros p [<-|[]]. exact Hc.
  - destruct (String.eqb nm k).
    + intros p [<-|Hp]; [exact Hc|apply H; now right].
    + intros p [<-|Hp]; [apply H; now left|].
      apply IH; [intros q Hq; apply H; now right|exact Hp].
Qed.

Lemma fillna_len c v : col_len (fillna c v) = col_len c.
Proof. destruct c, v; simpl; try rewrite length_map; reflexivity. Qed.

Lemma select_len df names X N : all_len df N -> select df names = Ok X -> all_len X N.
Proof.
  intros H Hs p Hp. destruct (select_In df names X Hs p Hp) as [_ Hl].
  exact (lookup_len df _ _ N H Hl).
Qed.

Lemma to_float_len c xs : to_float c = Ok xs -> length xs = col_len c.
Proof.
  destruct c as [ys|ys]; simpl.
  - intro E. now injection E as <-.
  - destruct (all_missing ys); [|discriminate]. intro E. injection E as <-.
    apply length_map.
Qed.

Lemma get_dummies_len X N : all_len X N -> all_len (get_dummies X) N.
Proof.
  intros H p Hp. unfold get_dummies in Hp. apply in_app_or in Hp as [Hp|Hp].
  - apply filter_In in Hp as [Hp _]. exact (H p Hp).
  - apply in_flat_map in Hp as [q [Hq Hp]].
    pose proof (H q Hq) as Hl.
    destruct (snd q) as [ys|ys]; [destruct Hp|].
    unfold dummies in Hp. apply in_map_iff in Hp as [v [<- _]]. simpl in *.
    now rewrite length_map.
Qed.

Lemma astype_int_len X Y N : all_len X N -> astype_int X = Ok Y -> all_len Y N.
Proof.
  intros H Ha p Hp. unfold astype_int in Ha.
  destruct (mapM_In _ _ _ Ha p Hp) as [q [Hq Hf]].
  destruct (astype_int_col (snd q)) as [c|e] eqn:Ec; cbn [bind] in Hf; [|discriminate].
  injection Hf as <-. simpl. rewrite <- (H q Hq).
  destruct (snd q) as [xs|xs]; simpl in Ec; [|discriminate].
  destruct (forallb _ xs); [|discriminate]. injection Ec as <-. simpl.
  apply length_map.
Qed.

Lemma fit_transform_len sqrt X out N :
  all_len X N -> fit_transform sqrt X = Ok out -> forall ys, In ys out -> length ys = N.
Proof.
  intros H Hf ys Hys. unfold fit_transform in Hf.
  destruct (Scan.mapM (fun p => to_float (snd p)) X) as [cols|e] eqn:Hc;
    cbn [bind] in Hf; [|discriminate].
  destruct (length (hd [] cols) =? 0)%nat; [discriminate|]. injection Hf as <-.
  apply in_map_iff in Hys as [xs [<- Hxs]].
  destruct (mapM_In _ _ _ Hc xs Hxs) as [p [Hp Hx]].
  destruct (FeatureExtrasFacts.scale_column_spec sqrt xs) as [-> _].
  rewrite (to_float_len _ _ Hx). exact (H p Hp).
Qed.

End ShapeFacts.

Module ShapeExtras.
Import Features FeatureFacts ShapeFacts.

(** Property X14: When every column of the input frame has [N] values, every column of
    the feature matrix built by [prepare_features] has [N] values: the
    matrix keeps one row per encounter. *)
Theorem prepare_features_rows (sqrt : Q -> Q) (df : frame) (N : nat) X :
  (forall p, In p df -> col_len (snd p) = N) ->
  prepare_features sqrt df = Ok X ->
  forall p, In p X -> col_len (snd p) = N.
Proof.
  intros H Hp. unfold prepare_features in Hp.
  destruct (getitem df "PatientWeight") as [w|e] eqn:Hw; cbn [bind] in Hp; [|discriminate].
  destruct (median w) as [med|e]; cbn [bind] in Hp; [|discriminate].
  unfold getitem in Hw. destruct (lookup df "PatientWeight") as [w'|] eqn:Hl;
    [injection Hw as ->|discriminate].
  assert (H1 : all_len (setitem df "PatientWeight" (fillna w med)) N).
  { apply setitem_len; [exact H|]. rewrite fillna_len. exact (lookup_len df _ _ N H Hl). }
  set (df1 := setitem df "PatientWeight" (fillna w med)) in *.
  destruct (select df1 NUMERICAL_FEATURES) as [num|e] eqn:Hn; cbn [bind] in Hp; [|discriminate].
  destruct (fit_transform sqrt num) as [scaled|e] eqn:Hs; cbn [bind] in Hp; [|discriminate].
  destruct (select df1 BINARY_FEATURES) as [bin|e] eqn:Hb; cbn [bind] in Hp; [|discriminate].
  destruct (select df1 CATEGORICAL_FEATURES) as [cat|e] eqn:Hc; cbn [bind] in Hp; [|discriminate].
  destruct (astype_int (get_dummies cat)) as [cd|e] eqn:Ha; cbn [bind] in Hp; [|discriminate].
  injection Hp as <-. intros p Hp.
  apply in_app_or in Hp as [Hp|Hp]; [|apply in_app_or in Hp as [Hp|Hp]].
  - assert (Hp' : In p (combine (map (fun c => (c ++ "_scaled")%string) NUMERICAL_FEATURES)
                                (map NumCol scaled))) by exact Hp.
    destruct p as [nm c]. apply in_combine_r in Hp'.
    apply in_map_iff in Hp' as [ys [<- Hys]]. simpl.
    exact (fit_transform_len sqrt num scaled N (select_len _ _ _ N H1 Hn) Hs ys Hys).
  - exact (select_len _ _ _ N H1 Hb p Hp).
  - exact (astype_int_len _ _ N (get_dummies_len _ N (select_len _ _ _ N H1 Hc)) Ha p Hp).
Qed.

Lemma prepare_features_rows_witness :
  exists X, prepare_features Scenarios.sqrt_newton Scenarios.gender_missing_df = Ok X /\
  forall p, In p X -> col_len (snd p) = 2%nat.
Proof.
  destruct (prepare_features Scenarios.sqrt_newton Scenarios.gender_missing_df) as [X|e] eqn:E;
    [|vm_compute in E; discriminate].
  exists X. split; [reflexivity|].
  refine (prepare_features_rows _ _ 2 _ _ E).
  apply Forall_forall. repeat constructor.
Defined.

End ShapeExtras.
